(** * Expense extraction and categorisation pipeline: a shallow embedding

    The development follows the Python sources of the expense tracker:

    - [gmail-integration.py]  : [process_email_message], [extract_expense_details],
      [extract_merchant_from_subject], [categorize_expense];
    - [advanced-ai-backend.py]: [ExpenseNLPProcessor.extract_email_info],
      [MLEmailParser.extract_expense_details], [extract_with_transformers],
      [extract_merchant_from_subject], [validate_extraction];
    - [task-scheduler.py]     : [process_email], [extract_email_body],
      [categorize_expense];
    - [websocket-manager.py]  : [ConnectionManager].

    Conventions of the embedding.

    - Python [str] and [bytes] values are Rocq strings; the character classes
      of the regular expressions ([\d], [\w], [\s], case folding) are those of
      the ASCII range.
    - Python [float] amounts are rationals [Q]: the code only parses decimal
      numerals and compares them with integer thresholds.
    - A Python exception is a value [Raise e] of the result type [res].
    - Third-party services (Gmail API, spaCy, transformers, dateutil,
      BeautifulSoup) are parameters of the functions that call them. *)

From Stdlib Require Import String Ascii List ZArith QArith Lia Bool Arith.
From stdpp Require Import gmap strings.
Import ListNotations.
Open Scope string_scope.
Open Scope nat_scope.

(** ** Exceptions *)

Inductive exn : Type :=
| NameError
| IndexError
| BinasciiError
| UnicodeDecodeError
| ValueError
| ServiceError.

Inductive res (A : Type) : Type :=
| Ok (a : A)
| Raise (e : exn).

Arguments Ok {A} a.
Arguments Raise {A} e.

(** [res] is a monad: [x ← e; k] runs [k] on the value of [e] and lets an
    exception of [e] through. *)
#[global] Instance res_ret : MRet res := fun A a => Ok a.
#[global] Instance res_bind : MBind res := fun A B f x =>
  match x with
  | Ok a => f a
  | Raise e => Raise e
  end.

(** ** Python string operations (ASCII) *)

Module Py.

Definition code (c : ascii) : nat := nat_of_ascii c.

Definition between (lo hi : nat) (c : ascii) : bool :=
  (lo <=? code c) && (code c <=? hi).

Definition is_digit (c : ascii) : bool := between 48 57 c.
Definition is_upper (c : ascii) : bool := between 65 90 c.
Definition is_lower (c : ascii) : bool := between 97 122 c.
Definition is_alnum (c : ascii) : bool := is_digit c || is_upper c || is_lower c.

(** [\w]: letters, digits and the underscore. *)
Definition is_word (c : ascii) : bool := is_alnum c || (code c =? 95).

(** [str.isspace] and [\s]: TAB, LF, VT, FF, CR, FS, GS, RS, US and SPACE. *)
Definition is_space (c : ascii) : bool := between 9 13 c || between 28 32 c.

Definition lower_char (c : ascii) : ascii :=
  if is_upper c then ascii_of_nat (code c + 32) else c.

Definition upper_char (c : ascii) : ascii :=
  if is_lower c then ascii_of_nat (code c - 32) else c.

(** [s.lower()] *)
Fixpoint lower (s : string) : string :=
  match s with
  | EmptyString => EmptyString
  | String c s' => String (lower_char c) (lower s')
  end.

(** [s.capitalize()]: first character upper-cased, the rest lower-cased. *)
Definition capitalize (s : string) : string :=
  match s with
  | EmptyString => EmptyString
  | String c s' => String (upper_char c) (lower s')
  end.

(** [s.startswith(p)] *)
Fixpoint startswith (p s : string) : bool :=
  match p, s with
  | EmptyString, _ => true
  | String a p', String b s' => Ascii.eqb a b && startswith p' s'
  | String _ _, EmptyString => false
  end.

(** [p in s] *)
Fixpoint contains (p s : string) : bool :=
  startswith p s ||
  match s with
  | EmptyString => false
  | String _ s' => contains p s'
  end.

(** [s.endswith(p)] *)
Fixpoint endswith (p s : string) : bool :=
  String.eqb p s ||
  match s with
  | EmptyString => false
  | String _ s' => endswith p s'
  end.

(** [s.replace(c, '')] for a one-character [c]. *)
Fixpoint remove_char (c : ascii) (s : string) : string :=
  match s with
  | EmptyString => EmptyString
  | String a s' => if Ascii.eqb a c then remove_char c s' else String a (remove_char c s')
  end.

Definition snoc (s : string) (c : ascii) : string := s ++ String c EmptyString.

(** [s.split(c)] with an explicit one-character separator: empty fields are
    kept, and the result is never empty. *)
Fixpoint split_on_aux (c : ascii) (s cur : string) : list string :=
  match s with
  | EmptyString => [cur]
  | String a s' =>
      if Ascii.eqb a c then cur :: split_on_aux c s' EmptyString
      else split_on_aux c s' (snoc cur a)
  end.

Definition split_on (c : ascii) (s : string) : list string :=
  split_on_aux c s EmptyString.

(** [s.split()]: fields separated by runs of white space, no empty field. *)
Fixpoint split_ws_aux (s cur : string) : list string :=
  match s with
  | EmptyString => match cur with EmptyString => [] | _ => [cur] end
  | String a s' =>
      if is_space a
      then match cur with
           | EmptyString => split_ws_aux s' EmptyString
           | _ => cur :: split_ws_aux s' EmptyString
           end
      else split_ws_aux s' (snoc cur a)
  end.

Definition split_ws (s : string) : list string := split_ws_aux s EmptyString.

(** [sep.join(l)] *)
Fixpoint join (sep : string) (l : list string) : string :=
  match l with
  | [] => EmptyString
  | [x] => x
  | x :: l' => x ++ sep ++ join sep l'
  end.

Fixpoint lstrip (s : string) : string :=
  match s with
  | EmptyString => EmptyString
  | String c s' => if is_space c then lstrip s' else s
  end.

Fixpoint rstrip (s : string) : string :=
  match s with
  | EmptyString => EmptyString
  | String c s' =>
      match rstrip s' with
      | EmptyString => if is_space c then EmptyString else String c EmptyString
      | r => String c r
      end
  end.

(** [s.strip()] *)
Definition strip (s : string) : string := rstrip (lstrip s).

(** The first [n] characters of [s]. *)
Fixpoint take (n : nat) (s : string) : string :=
  match n, s with
  | S n', String c s' => String c (take n' s')
  | _, _ => EmptyString
  end.

(** *** [float] on decimal numerals

    [float(s)] for [s] made of digits with an optional fraction, the only
    spellings the regular expressions of the program capture; any other
    string raises [ValueError], here [None]. *)

Fixpoint digits_value (s : string) (acc : Z) : option Z :=
  match s with
  | EmptyString => Some acc
  | String c s' =>
      if is_digit c
      then digits_value s' (10 * acc + Z.of_nat (code c - 48))%Z
      else None
  end.

Definition float_of (s : string) : option Q :=
  match split_on "." s with
  | [i] =>
      match i with
      | EmptyString => None
      | _ => option_map (fun n => inject_Z n) (digits_value i 0%Z)
      end
  | [i; f] =>
      match i ++ f with
      | EmptyString => None
      | _ =>
          match digits_value (i ++ f) 0%Z with
          | Some n => Some (Qred (n # Pos.of_nat (10 ^ String.length f)))
          | None => None
          end
      end
  | _ => None
  end.

End Py.

(** ** Regular expressions: the backtracking matcher of [re]

    [re.search] tries every start position from left to right and, at each,
    explores alternatives in the order of the pattern: the left branch of [|]
    first, one more iteration first for a greedy quantifier, the rest of the
    pattern first for a lazy one.  Every quantified sub-pattern of this
    program consumes at least one character per iteration; the matcher asks
    for this, so that the length of the subject bounds the iterations. *)

Module Re.

Inductive regex : Type :=
| Eps                                                     (* empty pattern *)
| Cls (p : ascii -> bool)                                 (* one character of a class *)
| Cat (r1 r2 : regex)                                     (* r1 r2 *)
| Alt (r1 r2 : regex)                                     (* r1|r2 *)
| Rep (greedy : bool) (lo : nat) (hi : option nat) (r : regex)  (* r{lo,hi} *)
| Grp (r : regex)                                         (* ( r ), group 1 *)
| Eos.                                                    (* $ *)

Definition below (n : nat) (hi : option nat) : bool :=
  match hi with
  | None => true
  | Some h => n <? h
  end.

(** [$] matches at the end of the subject and before a final newline. *)
Definition at_end (s : string) : bool :=
  match s with
  | EmptyString => true
  | String c EmptyString => Py.code c =? 10
  | _ => false
  end.

(** The part of [s] consumed when [s1] is what is left of it. *)
Definition consumed (s s1 : string) : string :=
  Py.take (String.length s - String.length s1) s.

Section Run.
Context {A : Type}.

(** The iterations of a quantified sub-pattern, [body] being its matcher:
    [n] iterations are done, [fuel] bounds those to come, and an iteration
    counts only when it consumes a character.  A greedy quantifier tries one
    more iteration before the rest of the pattern, a lazy one after it. *)
Fixpoint rep_loop
    (body : string -> option string -> (string -> option string -> option A) -> option A)
    (greedy : bool) (lo : nat) (hi : option nat)
    (k : string -> option string -> option A)
    (fuel n : nat) (s : string) (g : option string) {struct fuel} : option A :=
  match fuel with
  | O => if lo <=? n then k s g else None
  | S fuel' =>
      if greedy then
        match (if below n hi
               then body s g (fun s1 g1 =>
                      if String.length s1 <? String.length s
                      then rep_loop body greedy lo hi k fuel' (S n) s1 g1 else None)
               else None) with
        | Some a => Some a
        | None => if lo <=? n then k s g else None
        end
      else
        match (if lo <=? n then k s g else None) with
        | Some a => Some a
        | None =>
            if below n hi
            then body s g (fun s1 g1 =>
                   if String.length s1 <? String.length s
                   then rep_loop body greedy lo hi k fuel' (S n) s1 g1 else None)
            else None
        end
  end.

(** [run r s g k]: match [r] at the head of [s], group 1 currently holding
    [g], and hand the rest of the subject and the group to [k]; when [k]
    fails the next alternative is tried. *)
Fixpoint run (r : regex) (s : string) (g : option string)
    (k : string -> option string -> option A) {struct r} : option A :=
  match r with
  | Eps => k s g
  | Cls p =>
      match s with
      | String c s' => if p c then k s' g else None
      | EmptyString => None
      end
  | Cat r1 r2 => run r1 s g (fun s1 g1 => run r2 s1 g1 k)
  | Alt r1 r2 =>
      match run r1 s g k with
      | Some a => Some a
      | None => run r2 s g k
      end
  | Grp r1 => run r1 s g (fun s1 _ => k s1 (Some (consumed s s1)))
  | Eos => if at_end s then k s g else None
  | Rep greedy lo hi r1 => rep_loop (run r1) greedy lo hi k (String.length s) 0 s g
  end.
End Run.

(** A match object: where the match starts, the matched text, group 1 and
    what follows the match. *)
Record rmatch : Type := MkMatch {
  m_start : nat;
  m_text : string;
  m_group : option string;
  m_rest : string
}.

Definition match_at (r : regex) (pos : nat) (s : string) : option rmatch :=
  run r s None (fun s1 g =>
    Some {| m_start := pos; m_text := consumed s s1; m_group := g; m_rest := s1 |}).

(** [re.search(r, s)] *)
Fixpoint search_from (r : regex) (pos : nat) (s : string) : option rmatch :=
  match match_at r pos s with
  | Some m => Some m
  | None =>
      match s with
      | EmptyString => None
      | String _ s' => search_from r (S pos) s'
      end
  end.

Definition search (r : regex) (s : string) : option rmatch := search_from r 0 s.

(** [m.group(1)]; every pattern of the program has its group on every path
    of a successful match. *)
Definition group1 (m : rmatch) : string :=
  match m_group m with
  | Some g => g
  | None => EmptyString
  end.

(** [re.findall(r, s)] for a pattern with one group: group 1 of the
    successive non-overlapping matches. *)
Fixpoint findall_fuel (fuel : nat) (r : regex) (s : string) : list string :=
  match fuel with
  | O => []
  | S fuel' =>
      match search r s with
      | None => []
      | Some m =>
          group1 m ::
          match m_text m, m_rest m with
          | EmptyString, String _ s' => findall_fuel fuel' r s'
          | EmptyString, EmptyString => []
          | _, rest => findall_fuel fuel' r rest
          end
      end
  end.

Definition findall (r : regex) (s : string) : list string :=
  findall_fuel (S (String.length s)) r s.

(** Group 1 is set on every path through the pattern. *)
Fixpoint sets_group (r : regex) : bool :=
  match r with
  | Grp _ => true
  | Cat r1 r2 => sets_group r1 || sets_group r2
  | Alt r1 r2 => sets_group r1 && sets_group r2
  | Rep _ lo _ r1 => (1 <=? lo) && sets_group r1
  | Eps | Cls _ | Eos => false
  end.

(** The pattern consumes at least one character whenever it matches. *)
Fixpoint consuming (r : regex) : bool :=
  match r with
  | Cls _ => true
  | Cat r1 r2 => consuming r1 || consuming r2
  | Alt r1 r2 => consuming r1 && consuming r2
  | Rep _ lo _ r1 => (1 <=? lo) && consuming r1
  | Grp r1 => consuming r1
  | Eps | Eos => false
  end.

(** Every quantified sub-pattern is consuming. *)
Fixpoint well_quantified (r : regex) : bool :=
  match r with
  | Cat r1 r2 | Alt r1 r2 => well_quantified r1 && well_quantified r2
  | Rep _ _ _ r1 => consuming r1 && well_quantified r1
  | Grp r1 => well_quantified r1
  | Eps | Cls _ | Eos => true
  end.

(** The words of a list one after the other. *)
Fixpoint flatten (ws : list string) : string :=
  match ws with
  | [] => EmptyString
  | w :: rest => w ++ flatten rest
  end.

(** The words a pattern can match, anchors apart: the language of the
    pattern. *)
Fixpoint lang (r : regex) (w : string) : Prop :=
  match r with
  | Eps | Eos => w = EmptyString
  | Cls p => exists c, w = String c EmptyString /\ p c = true
  | Cat r1 r2 => exists w1 w2, w = w1 ++ w2 /\ lang r1 w1 /\ lang r2 w2
  | Alt r1 r2 => lang r1 w \/ lang r2 w
  | Grp r1 => lang r1 w
  | Rep _ lo hi r1 =>
      exists ws, w = flatten ws /\ Forall (lang r1) ws
                 /\ lo <= List.length ws
                 /\ match hi with Some h => List.length ws <= h | None => True end
  end.

(** Every text group 1 can capture in the pattern satisfies [P]. *)
Fixpoint captures (P : string -> Prop) (r : regex) : Prop :=
  match r with
  | Grp r1 => (forall w, lang r1 w -> P w) /\ captures P r1
  | Cat r1 r2 | Alt r1 r2 => captures P r1 /\ captures P r2
  | Rep _ _ _ r1 => captures P r1
  | Eps | Cls _ | Eos => True
  end.

(** *** Pattern syntax *)

Definition chr (c : ascii) : regex := Cls (Ascii.eqb c).
Definition chr_i (c : ascii) : regex :=
  Cls (fun x => Ascii.eqb (Py.lower_char x) (Py.lower_char c)).

(** A literal word, exact and under [re.IGNORECASE]. *)
Fixpoint lit (s : string) : regex :=
  match s with
  | EmptyString => Eps
  | String c EmptyString => chr c
  | String c s' => Cat (chr c) (lit s')
  end.

Fixpoint lit_i (s : string) : regex :=
  match s with
  | EmptyString => Eps
  | String c EmptyString => chr_i c
  | String c s' => Cat (chr_i c) (lit_i s')
  end.

Fixpoint seq (l : list regex) : regex :=
  match l with
  | [] => Eps
  | [r] => r
  | r :: l' => Cat r (seq l')
  end.

Fixpoint alt (l : list regex) : regex :=
  match l with
  | [] => Cls (fun _ => false)
  | [r] => r
  | r :: l' => Alt r (alt l')
  end.

Definition star (r : regex) : regex := Rep true 0 None r.        (* r*  *)
Definition plus (r : regex) : regex := Rep true 1 None r.        (* r+  *)
Definition opt (r : regex) : regex := Rep true 0 (Some 1) r.     (* r?  *)
Definition times (n : nat) (r : regex) : regex := Rep true n (Some n) r.  (* r{n} *)
Definition upto (n : nat) (r : regex) : regex := Rep true 0 (Some n) r.   (* r{0,n} *)
Definition plus_lazy (r : regex) : regex := Rep false 1 None r.  (* r+? *)

Definition d : regex := Cls Py.is_digit.                         (* \d *)
Definition w : regex := Cls Py.is_word.                          (* \w *)
Definition sp : regex := Cls Py.is_space.                        (* \s *)
Definition dot : regex := Cls (fun c => negb (Py.code c =? 10)). (* .  *)

End Re.

(** ** The decoders of the standard library

    [base64.urlsafe_b64decode] maps [-] and [_] to [+] and [/] and calls
    [binascii.a2b_base64], which skips characters outside the alphabet,
    stops at a complete padding and raises [binascii.Error] when the data
    characters do not fill their last group.  [bytes.decode('utf-8')] raises
    [UnicodeDecodeError] on an ill-formed sequence; a decoded text is kept as
    its UTF-8 bytes. *)

Module Codec.

(** The 6-bit value of a character of the alphabet. *)
Definition sextet (c : ascii) : option nat :=
  let n := Py.code c in
  if Py.is_upper c then Some (n - 65)
  else if Py.is_lower c then Some (n - 97 + 26)
  else if Py.is_digit c then Some (n - 48 + 52)
  else if (n =? 43) || (n =? 45) then Some 62          (* + and - *)
  else if (n =? 47) || (n =? 95) then Some 63          (* / and _ *)
  else None.

Definition byte_of (n : nat) : ascii := ascii_of_nat (n mod 256).

(** [quad] is the position in the current group of four, [left] the bits not
    yet written, [pads] the padding characters seen since the last data
    character. *)
Fixpoint a2b (s : string) (quad left pads : nat) : res string :=
  match s with
  | EmptyString =>
      match quad with
      | 0 => Ok EmptyString
      | _ => Raise BinasciiError
      end
  | String c s' =>
      if Py.code c =? 61 then                              (* '=' *)
        if (2 <=? quad) && (4 <=? quad + S pads) then Ok EmptyString
        else a2b s' quad left (if 2 <=? quad then S pads else pads)
      else
        match sextet c with
        | None => a2b s' quad left pads
        | Some v =>
            match quad with
            | 0 => a2b s' 1 v 0
            | 1 => out ← a2b s' 2 (v mod 16) 0;
                   Ok (String (byte_of (left * 4 + v / 16)) out)
            | 2 => out ← a2b s' 3 (v mod 4) 0;
                   Ok (String (byte_of (left * 16 + v / 4)) out)
            | _ => out ← a2b s' 0 0 0;
                   Ok (String (byte_of (left * 64 + v)) out)
            end
        end
  end.

Definition urlsafe_b64decode (data : string) : res string := a2b data 0 0 0.

Definition cont (c : ascii) : bool := Py.between 128 191 c.

(** Well-formed UTF-8 (RFC 3629): no overlong form, no surrogate, nothing
    above U+10FFFF. *)
Fixpoint utf8_valid_fuel (fuel : nat) (s : string) : bool :=
  match fuel with
  | O => match s with EmptyString => true | _ => false end
  | S fuel' =>
      match s with
      | EmptyString => true
      | String a s1 =>
          let n := Py.code a in
          if n <? 128 then utf8_valid_fuel fuel' s1
          else match s1 with
          | EmptyString => false
          | String b s2 =>
              if Py.between 194 223 a then cont b && utf8_valid_fuel fuel' s2
              else match s2 with
              | EmptyString => false
              | String c s3 =>
                  if Py.between 224 239 a then
                    (if n =? 224 then Py.between 160 191 b
                     else if n =? 237 then Py.between 128 159 b
                     else cont b)
                    && cont c && utf8_valid_fuel fuel' s3
                  else match s3 with
                  | EmptyString => false
                  | String d s4 =>
                      Py.between 240 244 a
                      && (if n =? 240 then Py.between 144 191 b
                          else if n =? 244 then Py.between 128 143 b
                          else cont b)
                      && cont c && cont d && utf8_valid_fuel fuel' s4
                  end
              end
          end
      end
  end.

Definition utf8_valid (s : string) : bool := utf8_valid_fuel (String.length s) s.

Definition decode_utf8 (b : string) : res string :=
  if utf8_valid b then Ok b else Raise UnicodeDecodeError.

(** [base64.urlsafe_b64decode(data).decode('utf-8')] *)
Definition decode_body (data : string) : res string :=
  b ← urlsafe_b64decode data; decode_utf8 b.

End Codec.

(** ** Messages of the mail provider and calendar dates *)

Record Date : Type := MkDate { year : Z; month : Z; day : Z }.

Record Header : Type := MkHeader { h_name : string; h_value : string }.

(** [b_data] is the [data] key of a body, which may be missing. *)
Record Body : Type := MkBody { b_data : option string }.

Record Part : Type := MkPart { mimeType : string; p_body : Body }.

(** [parts] is [None] when the payload has no [parts] key. *)
Record Payload : Type := MkPayload {
  headers : list Header;
  parts : option (list Part);
  body : Body
}.

Record Message : Type := MkMessage { payload : Payload }.

(** [body.get('data', '')] *)
Definition get_data (b : Body) : string :=
  match b_data b with
  | Some d => d
  | None => EmptyString
  end.

(** Truth value of a string: [if s:]. *)
Definition truthy (s : string) : bool :=
  match s with
  | EmptyString => false
  | _ => true
  end.

(** [next((h['value'] for h in headers if test(h['name'])), '')] *)
Definition header_value (test : string -> bool) (hs : list Header) : string :=
  match find (fun h => test (h_name h)) hs with
  | Some h => h_value h
  | None => EmptyString
  end.

(** ** Third-party services shared by the two pipelines

    [now] is [datetime.now()]; [dateutil_parse s] is
    [dateutil.parser.parse(s).date()], [None] when it raises;
    [gmail_get token id] is the [messages().get(...).execute()] call of a
    service built from a refresh token; [soup_get_text] is the visible text
    BeautifulSoup returns for a document ([get_text()] after the [script]
    and [style] elements are removed) and [soup_get_text_sep] is
    [get_text(separator=' ', strip=True)]. *)

Record world : Type := MkWorld {
  now : Date;
  dateutil_parse : string -> option Date;
  gmail_get : string -> string -> res Message;
  soup_get_text : string -> string;
  soup_get_text_sep : string -> string
}.

(** [try: date = dateutil.parser.parse(date_str).date()] with
    [except: date = datetime.now().date()] *)
Definition sent_date (W : world) (date_str : string) : Date :=
  match dateutil_parse W date_str with
  | Some d => d
  | None => now W
  end.

(** ** gmail_integration.py *)

Module Gmail.
Import Re.

(** [[A-Za-z0-9\s\.]] *)
Definition name_char (c : ascii) : bool :=
  Py.is_alnum c || Py.is_space c || (Py.code c =? 46).

(** [[A-Za-z0-9\-]] *)
Definition ref_char (c : ascii) : bool := Py.is_alnum c || (Py.code c =? 45).

(** [\d+(?:\.\d{2})?] *)
Definition number : regex := Cat (plus d) (opt (Cat (chr ".") (times 2 d))).

Definition label : regex :=
  alt [lit_i "total"; lit_i "amount"; lit_i "charge"; lit_i "payment"].

(** The patterns of [amount_patterns], searched with [re.IGNORECASE]. *)
Definition amount_patterns : list regex :=
  [ seq [label; upto 3 (Cat (plus sp) (plus w)); plus sp; chr "$"; star sp; Grp number];
    seq [chr "$"; star sp; Grp number; plus sp; label];
    seq [alt [lit_i "USD"; lit_i "US$"]; star sp; Grp number];
    seq [Grp (seq [plus d; chr "."; times 2 d]); plus sp;
         alt [lit_i "USD"; lit_i "US$"; lit_i "dollars"]] ].

(** [\$\s*(\d+(?:,\d{3})*(?:\.\d{2})?)], the general pattern. *)
Definition general_amount_pattern : regex :=
  seq [chr "$"; star sp;
       Grp (seq [plus d; star (Cat (chr ",") (times 3 d));
                 opt (Cat (chr ".") (times 2 d))])].

Definition merchant_patterns : list regex :=
  [ seq [alt [lit_i "from"; lit_i "vendor"; lit_i "merchant"; lit_i "store";
              lit_i "retailer"];
         chr ":"; plus sp; Grp (plus (Cls name_char))];
    seq [lit_i "Thank"; plus sp; lit_i "you"; plus sp; lit_i "for"; plus sp;
         alt [seq [lit_i "your"; plus sp; lit_i "purchase"]; lit_i "ordering";
              lit_i "shopping"];
         plus sp; alt [lit_i "from"; lit_i "with"; lit_i "at"]; plus sp;
         Grp (plus (Cls name_char))] ].

(** [<([^>]+)>] *)
Definition address_pattern : regex :=
  seq [chr "<"; Grp (plus (Cls (fun c => negb (Ascii.eqb c ">")))); chr ">"].

Definition description_patterns : list regex :=
  [ seq [alt [lit_i "order"; lit_i "confirmation"]; plus sp;
         alt [lit_i "number"; chr "#"]; chr ":"; star sp; Grp (plus (Cls ref_char))];
    seq [alt [lit_i "invoice"; lit_i "receipt"]; plus sp;
         alt [lit_i "number"; chr "#"]; chr ":"; star sp; Grp (plus (Cls ref_char))];
    seq [alt [lit_i "purchase"; lit_i "bought"; lit_i "ordered"]; chr ":"; plus sp;
         Grp (plus_lazy dot); alt [chr "."; Eos]] ].

(** The patterns of [extract_merchant_from_subject]. *)
Definition subject_patterns : list regex :=
  [ seq [alt [lit_i "Your"; lit_i "New"]; chr " "; alt [lit_i "order"; lit_i "purchase"];
         chr " "; alt [lit_i "from"; lit_i "with"]; chr " "; Grp (plus (Cls name_char))];
    seq [Grp (plus (Cls name_char)); chr " ";
         alt [lit_i "order"; lit_i "receipt"; lit_i "invoice"; lit_i "confirmation"]];
    seq [alt [lit_i "Receipt"; lit_i "Confirmation"]; lit_i " for ";
         Grp (plus (Cls name_char))];
    seq [lit_i "Thanks for "; alt [lit_i "ordering"; lit_i "shopping"]; chr " ";
         alt [lit_i "from"; lit_i "with"; lit_i "at"]; chr " ";
         Grp (plus (Cls name_char))] ].

(** [for pattern in patterns: m = re.search(pattern, text); if m: ... break]:
    the match of the first pattern, in list order, that matches. *)
Fixpoint first_match (patterns : list regex) (text : string) : option rmatch :=
  match patterns with
  | [] => None
  | r :: rest =>
      match search r text with
      | Some m => Some m
      | None => first_match rest text
      end
  end.

Definition extract_merchant_from_subject (subject : string) : option string :=
  match first_match subject_patterns subject with
  | Some m => Some (Py.strip (group1 m))
  | None => None
  end.

(** The [results] dictionary that [extract_expense_details] returns: it is
    returned only with its [amount] and [merchant] keys set; [description]
    is [None] when the key is absent. *)
Record results : Type := MkResults {
  amount : Q;
  merchant : string;
  description : option string
}.

(** [float(m.group(1).replace(',', ''))] *)
Definition amount_of (m : rmatch) : res Q :=
  match Py.float_of (Py.remove_char "," (group1 m)) with
  | Some q => Ok q
  | None => Raise ValueError
  end.


(** The sender fall-back of [extract_expense_details], run on the headers of
    a message: the first [From] header decides. *)
Definition merchant_from_sender (hs : list Header) : res (option string) :=
  match find (fun h => String.eqb (h_name h) "From") hs with
  | None => Ok None
  | Some h =>
      let from_value := h_value h in
      match search address_pattern from_value with
      | Some m =>
          match Py.split_on "@" (group1 m) with
          | _ :: domain :: _ =>
              Ok (Some (Py.capitalize (hd EmptyString (Py.split_on "." domain))))
          | _ => Raise IndexError
          end
      | None => Ok (Some (hd EmptyString (Py.split_on " " from_value)))
      end
  end.

(** The module namespace of gmail_integration.py binds the imported names,
    [SCOPES] and the functions of the file; no variable of it holds a
    message. *)
Definition module_globals : gmap string Message := ∅.

(** The amount part of [extract_expense_details]: the patterns of
    [amount_patterns] in order, the loop left at the first one that matches,
    and the general pattern when [amount] is still not in [results]. *)
Definition extract_amount (text : string) : res (option Q) :=
  match first_match amount_patterns text with
  | Some m => q ← amount_of m; Ok (Some q)
  | None =>
      match search general_amount_pattern text with
      | Some m => q ← amount_of m; Ok (Some q)
      | None => Ok None
      end
  end.

(** The merchant from the subject when it is a non-empty string, else from
    the patterns of [merchant_patterns] on the text. *)
Definition find_merchant (text subject : string) : option string :=
  match extract_merchant_from_subject subject with
  | Some (String c s0) => Some (String c s0)
  | _ =>
      match first_match merchant_patterns text with
      | Some m => Some (Py.strip (group1 m))
      | None => None
      end
  end.

Definition find_description (text : string) : option string :=
  match first_match description_patterns text with
  | Some m => Some (Py.strip (group1 m))
  | None => None
  end.

Section Extract.
Variable W : world.
(** The variables of the enclosing namespace that hold a message:
    [extract_expense_details] reads the name [message], which is neither a
    parameter nor a local of it. *)
Variable globals : gmap string Message.

(** The visible text of an HTML body, then [' '.join(text.split())]. *)
Definition clean_text (text : string) : string :=
  let text := if Py.contains "<html" (Py.lower text) then soup_get_text W text else text in
  Py.join " " (Py.split_ws text).

Definition extract_expense_details (text subject : string) : res (option results) :=
  let text := clean_text text in
  a ← extract_amount text;
  mch ← match find_merchant text subject with
         | Some name => Ok (Some name)
         | None =>
             match globals !! "message" with
             | None => Raise NameError
             | Some message => merchant_from_sender (headers (payload message))
             end
         end;
  match a, mch with
  | Some amt, Some name =>
      Ok (Some {| amount := amt; merchant := name;
                  description := find_description text |})
  | _, _ => Ok None
  end.
End Extract.

(** *** Storage (the models of app.py) *)

Record User : Type := MkUser { u_id : Z; u_email : string; refresh_token : string }.

Record Category : Type := MkCategory { c_id : Z; c_name : string; c_user_id : Z }.

Record Expense : Type := MkExpense {
  e_id : Z;
  e_date : Date;
  e_amount : Q;
  e_merchant : string;
  e_description : string;
  e_category_id : option Z;
  e_user_id : Z;
  e_email_id : option string
}.

Record db : Type := MkDb {
  users : list User;
  categories : list Category;
  expenses : list Expense
}.

Definition set_category (e : Expense) (c : Z) : Expense :=
  {| e_id := e_id e; e_date := e_date e; e_amount := e_amount e;
     e_merchant := e_merchant e; e_description := e_description e;
     e_category_id := Some c; e_user_id := e_user_id e; e_email_id := e_email_id e |}.

(** [merchant_rules], in the order of the dictionary literal. *)
Definition merchant_rules : list (string * list string) :=
  [ ("grocery", ["kroger"; "safeway"; "trader joe"; "aldi"; "whole foods"; "wegmans"]);
    ("restaurant", ["doordash"; "ubereats"; "grubhub"; "mcdonalds"; "chipotle"; "starbucks"]);
    ("transportation", ["uber"; "lyft"; "amtrak"; "delta"; "southwest"; "united"]);
    ("shopping", ["amazon"; "walmart"; "target"; "ebay"; "etsy"; "best buy"]);
    ("entertainment", ["netflix"; "hulu"; "spotify"; "disney+"; "hbo"; "amc"]);
    ("utilities", ["comcast"; "verizon"; "at&t"; "pge"; "water bill"; "electric"]) ].

(** [{cat.name.lower(): cat.id for cat in categories}]: a later category
    replaces an earlier one of the same lower-cased name. *)
Definition category_dict (cats : list Category) : gmap string Z :=
  fold_left (fun dict cat => <[Py.lower (c_name cat) := c_id cat]> dict) cats ∅.

(** [any(keyword in text for keyword in keywords)] *)
Definition any_in (keywords : list string) (text : string) : bool :=
  existsb (fun k => Py.contains k text) keywords.

(** The loop over [merchant_rules.items()]: the first rule with a keyword in
    the merchant and a category the user has. *)
Fixpoint merchant_rule (rules : list (string * list string)) (merchant_lower : string)
    (dict : gmap string Z) : option Z :=
  match rules with
  | [] => None
  | (category, merchants) :: rest =>
      if any_in merchants merchant_lower then
        match dict !! Py.lower category with
        | Some c => Some c
        | None => merchant_rule rest merchant_lower dict
        end
      else merchant_rule rest merchant_lower dict
  end.

Definition seasonal_rule (now : Date) (description_lower : string)
    (dict : gmap string Z) : option Z :=
  if ((month now =? 11)%Z || (month now =? 12)%Z)
     && any_in ["gift"; "christmas"; "holiday"] description_lower
  then match dict !! "holiday" with
       | Some c => Some c
       | None => dict !! "christmas"
       end
  else None.

Definition travel_rule (description_lower : string) (dict : gmap string Z) : option Z :=
  if any_in ["flight"; "hotel"; "vacation"; "travel"; "booking"] description_lower
  then dict !! "travel"
  else None.

Definition default_rule (dict : gmap string Z) : option Z :=
  match dict !! "uncategorized" with
  | Some c => Some c
  | None => dict !! "other"
  end.

(** [categorize_expense(expense, user_id)]: the expense with its
    [category_id] set, or unchanged when no rule applies. *)
Definition categorize_expense (W : world) (st : db) (expense : Expense) (user_id : Z)
    : Expense :=
  let dict := category_dict (filter (fun c => (c_user_id c =? user_id)%Z) (categories st)) in
  match merchant_rule merchant_rules (Py.lower (e_merchant expense)) dict with
  | Some c => set_category expense c
  | None =>
      match seasonal_rule (now W) (Py.lower (e_description expense)) dict with
      | Some c => set_category expense c
      | None =>
          match travel_rule (Py.lower (e_description expense)) dict with
          | Some c => set_category expense c
          | None =>
              match default_rule dict with
              | Some c => set_category expense c
              | None => expense
              end
          end
      end
  end.


(** *** [process_email_message] *)

Inductive outcome : Type :=
| UserNotFound                     (* {'error': 'User not found'} *)
| Skipped (reason : string)        (* {'status': 'skipped', 'reason': reason} *)
| Success (expense_id : Z).        (* {'status': 'success', 'expense_id': id} *)

(** The loop over [parts]: the data of the first [text/plain] part, else of
    the last [text/html] part before it; [None] when neither occurs. *)
Fixpoint select_data (ps : list Part) (data : option string) : option string :=
  match ps with
  | [] => data
  | part :: rest =>
      if String.eqb (mimeType part) "text/plain" then Some (get_data (p_body part))
      else if String.eqb (mimeType part) "text/html"
           then select_data rest (Some (get_data (p_body part)))
           else select_data rest data
  end.

Definition body_text (pl : Payload) : res string :=
  let data :=
    match parts pl with
    | Some ps => select_data ps None
    | None => Some (get_data (body pl))
    end in
  match data with
  | Some (String c s0) => Codec.decode_body (String c s0)
  | _ => Ok EmptyString
  end.

(** The primary key the database gives a new row. *)
Definition next_id (es : list Expense) : Z :=
  (1 + fold_right Z.max 0 (map e_id es))%Z.

Definition has_email_id (message_id : string) (e : Expense) : bool :=
  match e_email_id e with
  | Some i => String.eqb i message_id
  | None => false
  end.

(** [db.session.add(expense); db.session.commit()] *)
Definition add_expense (st : db) (e : Expense) : db :=
  {| users := users st; categories := categories st; expenses := expenses st ++ [e] |}.

Section Process.
Variable W : world.

(** The work of [process_email_message] after the two look-ups: fetch the
    message, read its headers and body, extract and build the expense. *)
Definition fetch_and_extract (st : db) (user : User) (user_id : Z) (message_id : string)
    : res (option Expense) :=
  message ← gmail_get W (refresh_token user) message_id;
  let pl := payload message in
  let subject := header_value (String.eqb "Subject") (headers pl) in
  let date_str := header_value (String.eqb "Date") (headers pl) in
  let date := sent_date W date_str in
  text ← body_text pl;
  found ← extract_expense_details W module_globals text subject;
  match found with
  | Some r =>
      let expense :=
        {| e_id := next_id (expenses st);
           e_date := date;
           e_amount := amount r;
           e_merchant := merchant r;
           e_description := match description r with Some x => x | None => EmptyString end;
           e_category_id := None;
           e_user_id := user_id;
           e_email_id := Some message_id |} in
      Ok (Some (categorize_expense W st expense user_id))
  | None => Ok None
  end.

(** The result of the task and the database it leaves; an exception
    leaves the database as it was. *)
Definition process_email_message (st : db) (user_id : Z) (message_id : string)
    : res outcome * db :=
  match find (fun u => (u_id u =? user_id)%Z) (users st) with
  | None => (Ok UserNotFound, st)
  | Some user =>
      match find (has_email_id message_id) (expenses st) with
      | Some _ => (Ok (Skipped "already_processed"), st)
      | None =>
          match fetch_and_extract st user user_id message_id with
          | Raise e => (Raise e, st)
          | Ok None => (Ok (Skipped "no_expense_details_found"), st)
          | Ok (Some expense) => (Ok (Success (e_id expense)), add_expense st expense)
          end
      end
  end.
End Process.

End Gmail.

(** ** advanced-ai-backend.py: the NLP processor and the ML e-mail parser *)

Module ML.
Import Re.

(** What spaCy returns for a text: its tokens, each with [like_num], and its
    entities with their labels. *)
Record Token : Type := MkToken { t_text : string; like_num : bool }.
Record Ent : Type := MkEnt { ent_text : string; label_ : string }.
Record Doc : Type := MkDoc { tokens : list Token; ents : list Ent }.

(** An item of the output of the transformers NER pipeline. *)
Record NerEntity : Type := MkNer { entity : string; word : string }.

(** The models the two classes call.  [nlp] is the spaCy pipeline;
    [ner_model] is [self.ner_model] of [MLEmailParser], [None] when no model
    could be loaded, else the function that builds the NER pipeline and runs
    it on a text; [classifier] is [self.model] of [ExpenseNLPProcessor],
    [None] when no model is trained, else the prediction for the combined
    text of an expense; [zero_shot] is the top label of the zero-shot
    classifier for a text and a list of labels. *)
Record models : Type := MkModels {
  nlp : string -> Doc;
  ner_model : option (string -> res (list NerEntity));
  classifier : option (string -> res string);
  zero_shot : string -> list string -> res string
}.

(** The result dictionary of the extractors.  For [amount] and [merchant] the
    outer option is the presence of the key and the inner one tells a value
    from [None]. *)
Record candidate : Type := MkCandidate {
  amount : option (option Q);
  merchant : option (option string);
  date : option Date;
  description : option string
}.

Definition ents_with (l : string) (doc : Doc) : list string :=
  map ent_text (filter (fun e => String.eqb (label_ e) l) (ents doc)).

(** The loop over the tokens of [extract_email_info]: a number-like token
    that is not the first and follows a token starting with [$]. *)
Fixpoint dollar_amounts (prev : option Token) (ts : list Token) : list Q :=
  match ts with
  | [] => []
  | t :: rest =>
      let here :=
        match prev with
        | Some pt =>
            if like_num t && Py.startswith "$" (t_text pt)
            then match Py.float_of (Py.remove_char "," (t_text t)) with
                 | Some q => [q]
                 | None => []
                 end
            else []
        | None => []
        end in
      here ++ dollar_amounts (Some t) rest
  end.

(** [word\s+(?:number|#)?:\s*([A-Za-z0-9\-]+)] *)
Definition order_pattern (word : string) : regex :=
  seq [lit_i word; plus sp; opt (alt [lit_i "number"; chr "#"]); chr ":"; star sp;
       Grp (plus (Cls Gmail.ref_char))].

Definition order_patterns : list regex :=
  map order_pattern ["order"; "confirmation"; "transaction"; "receipt"].

Record email_info : Type := MkInfo {
  amounts : list Q;
  merchants : list string;
  dates : list string;
  order_numbers : list string
}.

(** [ExpenseNLPProcessor.extract_email_info] *)
Definition extract_email_info (M : models) (email_text : string) : email_info :=
  let doc := nlp M email_text in
  {| amounts := dollar_amounts None (tokens doc);
     merchants := ents_with "ORG" doc;
     dates := ents_with "DATE" doc;
     order_numbers := flat_map (fun r => findall r email_text) order_patterns |}.

(** [max(l)] for a non-empty list, the first of the largest elements. *)
Definition max_of (a : Q) (l : list Q) : Q :=
  fold_left (fun m x => if Qle_bool x m then m else x) l a.

(** The amount both extractors choose: the largest amount between 1 and
    10000 when there is one, else the largest of all. *)
Definition pick_amount (l : list Q) : option Q :=
  match l with
  | [] => None
  | a :: rest =>
      match filter (fun x => Qle_bool 1 x && Qle_bool x 10000) l with
      | f :: frest => Some (max_of f frest)
      | [] => Some (max_of a rest)
      end
  end.

Definition count_of (x : string) (l : list string) : nat :=
  List.length (filter (String.eqb x) l).

(** [Counter(l).most_common(1)[0][0]]: the most frequent element, the one
    seen first among equals. *)
Definition most_common (l : list string) : option string :=
  match l with
  | [] => None
  | x :: rest =>
      Some (fold_left (fun best y => if count_of best l <? count_of y l then y else best)
                      rest x)
  end.

(** [[\w\s&]] *)
Definition merchant_char (c : ascii) : bool :=
  Py.is_word c || Py.is_space c || (Py.code c =? 38).

Definition subject_patterns : list regex :=
  [ seq [alt [lit_i "Receipt"; lit_i "Order"; lit_i "Confirmation"]; lit_i " from ";
         Grp (plus (Cls merchant_char))];
    seq [Grp (plus (Cls merchant_char)); lit_i " Order Confirmation"];
    seq [lit_i "Your "; Grp (plus (Cls merchant_char)); lit_i " order"];
    seq [lit_i "Thanks for your "; Grp (plus (Cls merchant_char)); lit_i " order"] ].

(** [MLEmailParser.extract_merchant_from_subject]; [None] is Python's [None]. *)
Definition extract_merchant_from_subject (M : models) (subject : string) : option string :=
  if negb (truthy subject) then None
  else
    match ents_with "ORG" (nlp M subject) with
    | org :: _ => Some org
    | [] =>
        match Gmail.first_match subject_patterns subject with
        | Some m => Some (Py.strip (group1 m))
        | None =>
            match Py.split_ws subject with
            | first :: _ => Some first
            | [] => Some "Unknown Merchant"
            end
        end
    end.

(** [MLEmailParser.validate_extraction] *)
Definition validate_extraction (result : option candidate) : bool :=
  match result with
  | None => false
  | Some r =>
      match amount r, merchant r, date r, description r with
      | None, None, None, None => false                      (* not result *)
      | Some a, Some m, _, _ =>
          match a with
          | None => false
          | Some q =>
              if Qeq_bool q 0 || Qle_bool q 0 || negb (Qle_bool q 50000) then false
              else
                match m with
                | None => false
                | Some name =>
                    if negb (truthy name) || (String.length name <? 2) then false
                    else true
                end
          end
      | _, _, _, _ => false                                  (* a required key is missing *)
      end
  end.


(** The branches of the loop over the NER output, in the order of the
    [if]/[elif] chain. *)
Inductive kind : Type := KOrg | KDate | KMoney | KOther.

Definition kind_of (e : NerEntity) : kind :=
  if Py.endswith "ORG" (entity e) then KOrg
  else if Py.endswith "DATE" (entity e) then KDate
  else if Py.endswith "MONEY" (entity e) || Py.endswith "CARDINAL" (entity e) then KMoney
  else KOther.

Definition is_kind (k : kind) (e : NerEntity) : bool :=
  match k, kind_of e with
  | KOrg, KOrg | KDate, KDate | KMoney, KMoney | KOther, KOther => true
  | _, _ => false
  end.

(** [\$?\d+(?:\.\d{2})?] with and without its group. *)
Definition money_test : regex := seq [opt (chr "$"); Gmail.number].
Definition money_pattern : regex := seq [opt (chr "$"); Grp Gmail.number].

Definition money_of (w : string) : list Q :=
  match search money_test w with
  | None => []
  | Some _ =>
      match search money_pattern w with
      | None => []
      | Some m =>
          match Py.float_of (group1 m) with
          | Some q => [q]
          | None => []
          end
      end
  end.

Section Parser.
Variable W : world.
Variable M : models.

(** The date both extractors store: the first date entity when it parses,
    else the current date. *)
Definition pick_date (ds : list string) : Date :=
  match ds with
  | first :: _ =>
      match dateutil_parse W first with
      | Some x => x
      | None => now W
      end
  | [] => now W
  end.

(** The dictionary both extractors return: [merchant], [date] and
    [description] are always set, [amount] only when an amount was found,
    and the dictionary is returned only with an [amount]. *)
Definition build (amts : list Q) (mch : option string) (ds : list string)
    (desc : string) : option candidate :=
  match pick_amount amts with
  | Some a =>
      Some {| amount := Some (Some a); merchant := Some mch;
              date := Some (pick_date ds); description := Some desc |}
  | None => None
  end.

(** [MLEmailParser.extract_with_transformers]; any exception inside gives
    [None]. *)
Definition extract_with_transformers (ner : string -> res (list NerEntity))
    (email_text email_subject : string) : option candidate :=
  match ner email_text with
  | Raise _ => None
  | Ok ner_results =>
      let organizations := map word (filter (is_kind KOrg) ner_results) in
      let ds := map word (filter (is_kind KDate) ner_results) in
      let amts := flat_map (fun e => money_of (word e)) (filter (is_kind KMoney) ner_results) in
      let mch :=
        match organizations with
        | org :: _ => Some org
        | [] => extract_merchant_from_subject M email_subject
        end in
      build amts mch ds EmptyString
  end.

(** The fall-back of [extract_expense_details] on the spaCy analysis. *)
Definition extract_with_nlp (email_text email_subject : string) : option candidate :=
  let nlp_results := extract_email_info M email_text in
  let mch :=
    match most_common (merchants nlp_results) with
    | Some name => Some name
    | None => extract_merchant_from_subject M email_subject
    end in
  let desc :=
    match order_numbers nlp_results with
    | first :: _ => "Order #" ++ first
    | [] => EmptyString
    end in
  build (amounts nlp_results) mch (dates nlp_results) desc.

(** [MLEmailParser.extract_expense_details] *)
Definition extract_expense_details (email_text email_subject : string)
    : option candidate :=
  match ner_model M with
  | Some ner =>
      let results := extract_with_transformers ner email_text email_subject in
      if validate_extraction results then results
      else extract_with_nlp email_text email_subject
  | None => extract_with_nlp email_text email_subject
  end.
End Parser.

End ML.

(** ** task_scheduler.py *)

Module Scheduler.

Record User : Type := MkUser { u_id : Z }.

Record Category : Type := MkCategory { c_id : Z; c_name : string; c_user_id : Z }.

(** The columns [process_email] fills; [amount] and [merchant] hold what the
    extractor stored under these keys, which may be [None]. *)
Record Expense : Type := MkExpense {
  e_id : Z;
  e_date : Date;
  e_amount : option Q;
  e_merchant : option string;
  e_description : string;
  e_category_id : option Z;
  e_user_id : Z;
  e_email_id : option string
}.

Record db : Type := MkDb {
  categories : list Category;
  expenses : list Expense
}.

(** [extract_email_body]: the loops over the parts. *)
Fixpoint first_plain (ps : list Part) : res string :=
  match ps with
  | [] => Ok EmptyString
  | part :: rest =>
      if String.eqb (mimeType part) "text/plain" && truthy (get_data (p_body part))
      then Codec.decode_body (get_data (p_body part))
      else first_plain rest
  end.

Fixpoint first_html (W : world) (ps : list Part) : res string :=
  match ps with
  | [] => Ok EmptyString
  | part :: rest =>
      if String.eqb (mimeType part) "text/html" && truthy (get_data (p_body part))
      then html ← Codec.decode_body (get_data (p_body part));
           Ok (soup_get_text_sep W html)
      else first_html W rest
  end.

Definition extract_email_body (W : world) (pl : Payload) : res string :=
  match parts pl with
  | Some ps =>
      text ← first_plain ps;
      if truthy text then Ok text else first_html W ps
  | None =>
      let data := get_data (body pl) in
      if truthy data then Codec.decode_body data else Ok EmptyString
  end.

(** [name ILIKE pattern]: [%] stands for any text, [_] for any character,
    letters match in either case. *)
Fixpoint ilike (pattern : string) : string -> bool :=
  match pattern with
  | EmptyString => fun s => negb (truthy s)
  | String c rest =>
      if Ascii.eqb c "%" then
        fix any (s : string) : bool :=
          ilike rest s ||
          match s with
          | EmptyString => false
          | String _ s' => any s'
          end
      else fun s =>
        match s with
        | EmptyString => false
        | String x s' =>
            (Ascii.eqb c "_" || Ascii.eqb (Py.lower_char c) (Py.lower_char x))
            && ilike rest s'
        end
  end.

Definition common_categories : list string :=
  [ "Food & Dining"; "Groceries"; "Shopping"; "Transportation"; "Entertainment";
    "Bills & Utilities"; "Health"; "Travel"; "Education"; "Personal Care"; "Home";
    "Gifts"; "Business" ].

(** [f"{expense.merchant} {expense.description if expense.description else ''}"] *)
Definition combined_text (e : Expense) : string :=
  (match e_merchant e with Some m => m | None => "None" end) ++ " " ++ e_description e.

(** [ExpenseNLPProcessor.predict_category] *)
Definition predict_category (M : ML.models) (e : Expense) : res string :=
  match ML.classifier M with
  | None => ML.zero_shot M (combined_text e) common_categories
  | Some predict => predict (combined_text e)
  end.

Definition set_category (e : Expense) (c : Z) : Expense :=
  {| e_id := e_id e; e_date := e_date e; e_amount := e_amount e;
     e_merchant := e_merchant e; e_description := e_description e;
     e_category_id := Some c; e_user_id := e_user_id e; e_email_id := e_email_id e |}.

Definition next_category_id (cs : list Category) : Z :=
  (1 + fold_right Z.max 0 (map c_id cs))%Z.

Definition next_id (es : list Expense) : Z :=
  (1 + fold_right Z.max 0 (map e_id es))%Z.

(** [categorize_expense(db, expense, user_id)]: the expense with its
    category and the categories of the session, one more when the predicted
    name is new for the user. *)
Definition categorize_expense (M : ML.models) (cs : list Category) (expense : Expense)
    (user_id : Z) : res (Expense * list Category) :=
  category_name ← predict_category M expense;
  if truthy category_name then
    match find (fun c => ilike category_name (c_name c) && (c_user_id c =? user_id)%Z) cs with
    | Some category => Ok (set_category expense (c_id category), cs)
    | None =>
        let new_category :=
          {| c_id := next_category_id cs; c_name := category_name; c_user_id := user_id |} in
        Ok (set_category expense (c_id new_category), (cs ++ [new_category])%list)
    end
  else Ok (expense, cs).

Definition has_email_id (message_id : string) (e : Expense) : bool :=
  match e_email_id e with
  | Some i => String.eqb i message_id
  | None => false
  end.

(** What [process_email] logs before it returns. *)
Inductive outcome : Type :=
| AlreadyProcessed                 (* "Email ... already processed, skipping" *)
| Created (e : Expense)            (* "Created expense from email ..." *)
| NotExtracted                     (* "Could not extract expense details ..." *)
| Failed (e : exn).                (* "Error processing email ..." and rollback *)

Section Process.
Variable W : world.
Variable M : ML.models.

(** The body of the [try] block up to [db.commit()]. *)
Definition fetch_and_extract (st : db) (user : User)
    (service : string -> res Message) (message_id : string)
    : res (option (Expense * list Category)) :=
  message ← service message_id;
  let pl := payload message in
  let subject := header_value (fun n => String.eqb (Py.lower n) "subject") (headers pl) in
  let date_str := header_value (fun n => String.eqb (Py.lower n) "date") (headers pl) in
  let date := sent_date W date_str in
  email_text ← extract_email_body W pl;
  match ML.extract_expense_details W M email_text subject with
  | Some {| ML.amount := Some a; ML.merchant := Some m;
            ML.date := d; ML.description := desc |} =>
      let expense :=
        {| e_id := next_id (expenses st);
           e_date := match d with Some x => x | None => date end;
           e_amount := a;
           e_merchant := m;
           e_description := match desc with Some x => x | None => EmptyString end;
           e_category_id := None;
           e_user_id := u_id user;
           e_email_id := Some message_id |} in
      r ← categorize_expense M (categories st) expense (u_id user);
      Ok (Some r)
  | _ => Ok None
  end.

Definition process_email (st : db) (user : User)
    (service : string -> res Message) (message_id : string) : outcome * db :=
  match find (has_email_id message_id) (expenses st) with
  | Some _ => (AlreadyProcessed, st)
  | None =>
      match fetch_and_extract st user service message_id with
      | Raise e => (Failed e, st)
      | Ok None => (NotExtracted, st)
      | Ok (Some (expense, cs)) =>
          (Created expense,
           {| categories := cs; expenses := (expenses st ++ [expense])%list |})
      end
  end.
End Process.

(** What [get_gmail_service] returns: [list_messages] is the result of
    [service.users().messages().list(userId='me', q=query).execute()], read
    as the identifiers of [results.get('messages', [])], and [get_message]
    that of [messages().get(...).execute()]. *)
Record Service : Type := MkService {
  list_messages : res (list string);
  get_message : string -> res Message
}.

Section Fetch.
Variable W : world.
Variable M : ML.models.
(** The users of the database; [get_gmail_service] gives [None] when the
    service cannot be built. *)
Variable users : list User.
Variable get_gmail_service : User -> option Service.

(** The loop of [fetch_emails]: [process_email] on each message in turn. *)
Definition process_all (st : db) (user : User) (service : Service)
    (message_ids : list string) : db :=
  fold_left (fun st id => snd (process_email W M st user (get_message service) id))
            message_ids st.

(** [fetch_emails(user_id)]: the database it leaves.  A missing user, a
    service that cannot be built and a listing that raises are logged and
    leave the database as it is. *)
Definition fetch_emails (st : db) (user_id : Z) : db :=
  match find (fun u => (u_id u =? user_id)%Z) users with
  | None => st
  | Some user =>
      match get_gmail_service user with
      | None => st
      | Some service =>
          match list_messages service with
          | Raise _ => st
          | Ok message_ids => process_all st user service message_ids
          end
      end
  end.
End Fetch.

End Scheduler.

(** ** websocket-manager.py: [ConnectionManager] *)

Module WS.

(** A WebSocket object is known by its identity. *)
Definition WebSocket : Type := nat.

(** [l.remove(x)]: the list without the first occurrence of [x]. *)
Fixpoint remove_first (x : WebSocket) (l : list WebSocket) : list WebSocket :=
  match l with
  | [] => []
  | y :: rest => if x =? y then rest else y :: remove_first x rest
  end.

(** [x in l] *)
Definition mem (x : WebSocket) (l : list WebSocket) : bool := existsb (Nat.eqb x) l.

(** [connect]: [accept] is the result of [await websocket.accept()]; when it
    raises, the registry is left as it was. *)
Definition connect (accept : WebSocket -> res unit)
    (active_connections : gmap Z (list WebSocket)) (websocket : WebSocket) (user_id : Z)
    : res unit * gmap Z (list WebSocket) :=
  match accept websocket with
  | Raise e => (Raise e, active_connections)
  | Ok _ =>
      let ac :=
        match active_connections !! user_id with
        | None => <[user_id := []]> active_connections
        | Some _ => active_connections
        end in
      match ac !! user_id with
      | Some l => (Ok tt, <[user_id := (l ++ [websocket])%list]> ac)
      | None => (Ok tt, ac)
      end
  end.

Definition disconnect (active_connections : gmap Z (list WebSocket))
    (websocket : WebSocket) (user_id : Z) : gmap Z (list WebSocket) :=
  match active_connections !! user_id with
  | None => active_connections
  | Some l =>
      let l' := if mem websocket l then remove_first websocket l else l in
      match l' with
      | [] => delete user_id active_connections
      | _ => <[user_id := l']> active_connections
      end
  end.

(** The calls a client of the manager can make on the registry. *)
Inductive call : Type :=
| Connect (websocket : WebSocket) (user_id : Z)
| Disconnect (websocket : WebSocket) (user_id : Z).

Definition step (accept : WebSocket -> res unit) (ac : gmap Z (list WebSocket)) (c : call)
    : gmap Z (list WebSocket) :=
  match c with
  | Connect ws u => snd (connect accept ac ws u)
  | Disconnect ws u => disconnect ac ws u
  end.

(** The registry after a sequence of calls on a fresh manager, whose
    [__init__] sets [active_connections] to the empty dictionary. *)
Definition run (accept : WebSocket -> res unit) (calls : list call)
    : gmap Z (list WebSocket) :=
  fold_left (step accept) calls ∅.

(** [broadcast_to_user]: [send c] is the result of
    [await connection.send_text(json.dumps(message))] for the connection
    [c].  The loop stops at the first send that raises; the connections that
    received the message are returned with the result. *)
Fixpoint send_all (send : WebSocket -> res unit) (l : list WebSocket)
    : list WebSocket * res unit :=
  match l with
  | [] => ([], Ok tt)
  | connection :: rest =>
      match send connection with
      | Ok _ => let (sent, r) := send_all send rest in (connection :: sent, r)
      | Raise e => ([], Raise e)
      end
  end.

Definition broadcast_to_user (send : WebSocket -> res unit)
    (active_connections : gmap Z (list WebSocket)) (user_id : Z)
    : list WebSocket * res unit :=
  match active_connections !! user_id with
  | Some l => send_all send l
  | None => ([], Ok tt)
  end.

End WS.

(** * Specification predicates and sample inputs *)

(** All the patterns the program searches. *)
Definition program_patterns : list Re.regex :=
  (Gmail.amount_patterns ++ [Gmail.general_amount_pattern] ++ Gmail.merchant_patterns
   ++ [Gmail.address_pattern] ++ Gmail.description_patterns ++ Gmail.subject_patterns
   ++ ML.order_patterns ++ ML.subject_patterns ++ [ML.money_pattern])%list.

Definition is_set (g : option string) : bool :=
  match g with
  | Some _ => true
  | None => false
  end.

(** Every user id of the registry maps to a non-empty list. *)
Definition no_empty_list (ac : gmap Z (list WS.WebSocket)) : Prop :=
  forall (u : Z) (l : list WS.WebSocket), ac !! u = Some l -> l <> [].




(** The dictionary [categorize_expense] builds for a user. *)
Definition user_dict (st : Gmail.db) (user_id : Z) : gmap string Z :=
  Gmail.category_dict
    (filter (fun c => (Gmail.c_user_id c =? user_id)%Z) (Gmail.categories st)).


(** A December day, a user with a transportation, a restaurant and a holiday
    category, and an expense at Uber Eats described as a gift. *)
Definition december : world :=
  {| now := MkDate 2024 12 5;
     dateutil_parse := fun _ => None;
     gmail_get := fun _ _ => Raise ServiceError;
     soup_get_text := fun s => s;
     soup_get_text_sep := fun s => s |}.

Definition gift_categories : Gmail.db :=
  {| Gmail.users := [Gmail.MkUser 7 "ann@example.com" "token-7"];
     Gmail.categories :=
       [ Gmail.MkCategory 1 "Transportation" 7; Gmail.MkCategory 2 "Holiday" 7;
         Gmail.MkCategory 3 "Restaurant" 7 ];
     Gmail.expenses := [] |}.

Definition uber_eats_gift : Gmail.Expense :=
  {| Gmail.e_id := 1; Gmail.e_date := MkDate 2024 12 5; Gmail.e_amount := 20;
     Gmail.e_merchant := "Uber Eats"; Gmail.e_description := "gift for mom";
     Gmail.e_category_id := None; Gmail.e_user_id := 7; Gmail.e_email_id := Some "m-1" |}.


(** A message in the module namespace, as the sender fall-back expects it. *)
Definition from_acme : Message :=
  {| payload :=
       {| headers := [MkHeader "From" "Acme Shop <noreply@acme.com>"];
          parts := None;
          body := MkBody None |} |}.

(** A part that [extract_email_body] would decode: a [text/plain] or
    [text/html] part with data. *)
Definition has_text_data (part : Part) : bool :=
  (String.eqb (mimeType part) "text/plain" || String.eqb (mimeType part) "text/html")
  && truthy (get_data (p_body part)).

(** The body of a payload is empty: no part has text data or, without
    parts, the body has no data. *)
Definition empty_body (pl : Payload) : bool :=
  match parts pl with
  | Some ps => forallb (fun part => negb (has_text_data part)) ps
  | None => negb (truthy (get_data (body pl)))
  end.

(** A payload without parts whose body holds [data]. *)
Definition single_part (hs : list Header) (data : string) : Payload :=
  {| headers := hs; parts := None; body := MkBody (Some data) |}.

(** The date header of the sample messages and a parser that reads it. *)
Definition new_year_header : string := "Mon, 1 Jan 2024 10:00:00 +0000".

Definition parse_new_year (s : string) : option Date :=
  if String.eqb s new_year_header then Some (MkDate 2024 1 1) else None.

(** A receipt of Acme whose body is the text [$999999]. *)
Definition large_receipt : Message :=
  {| payload :=
       single_part [MkHeader "Subject" "Acme receipt"; MkHeader "Date" new_year_header]
                   "JDk5OTk5OQ==" |}.

(** A receipt whose body is
    [Thank you for shopping at Acme. Total: $45.00]. *)
Definition acme_receipt : Message :=
  {| payload :=
       single_part [MkHeader "Subject" "Acme receipt"; MkHeader "Date" new_year_header]
                   "VGhhbmsgeW91IGZvciBzaG9wcGluZyBhdCBBY21lLiBUb3RhbDogJDQ1LjAw" |}.

Definition mailbox (id : string) : res Message :=
  if String.eqb id "m-1" then Ok large_receipt
  else if String.eqb id "m-2" then Ok acme_receipt
  else Raise ServiceError.

(** The world of 5 December 2024 with the two receipts in the mailbox. *)
Definition receipts : world :=
  {| now := MkDate 2024 12 5;
     dateutil_parse := parse_new_year;
     gmail_get := fun _ id => mailbox id;
     soup_get_text := fun s => s;
     soup_get_text_sep := fun s => s |}.

Definition two_users : Gmail.db :=
  {| Gmail.users := [Gmail.MkUser 1 "ann@example.com" "token-1";
                     Gmail.MkUser 2 "bob@example.com" "token-2"];
     Gmail.categories := [];
     Gmail.expenses := [] |}.

(** The spaCy analysis of the Acme receipt: the amount after a [$] token,
    one organisation, no date. *)
Definition acme_doc : ML.Doc :=
  {| ML.tokens := [ML.MkToken "Total" false; ML.MkToken ":" false; ML.MkToken "$" false;
                   ML.MkToken "45.00" true];
     ML.ents := [ML.MkEnt "Acme" "ORG"] |}.

(** Models without a NER model: the parser works on the spaCy analysis. *)
Definition spacy_only : ML.models :=
  {| ML.nlp := fun _ => acme_doc;
     ML.ner_model := None;
     ML.classifier := None;
     ML.zero_shot := fun _ _ => Ok "Shopping" |}.

(** Models with a NER model that tags the organisation and the amount. *)
Definition with_ner : ML.models :=
  {| ML.nlp := fun _ => acme_doc;
     ML.ner_model :=
       Some (fun _ => Ok [ML.MkNer "B-ORG" "Acme"; ML.MkNer "B-MONEY" "$45.00"]);
     ML.classifier := None;
     ML.zero_shot := fun _ _ => Ok "Shopping" |}.

(** The spaCy analysis of the large receipt, and models that have only it. *)
Definition large_doc : ML.Doc :=
  {| ML.tokens := [ML.MkToken "$" false; ML.MkToken "999999" true];
     ML.ents := [ML.MkEnt "Acme" "ORG"] |}.

Definition spacy_large : ML.models :=
  {| ML.nlp := fun _ => large_doc;
     ML.ner_model := None;
     ML.classifier := None;
     ML.zero_shot := fun _ _ => Ok "Shopping" |}.

Definition empty_store : Scheduler.db :=
  {| Scheduler.categories := []; Scheduler.expenses := [] |}.

(** The subject [process_email] reads from a message. *)
Definition subject_of (message : Message) : string :=
  header_value (fun n => String.eqb (Py.lower n) "subject") (headers (payload message)).


(** The message identifiers of the stored expenses that have one. *)
Definition email_ids (es : list Gmail.Expense) : list string :=
  flat_map (fun e => match Gmail.e_email_id e with Some i => [i] | None => [] end) es.

Definition stored_email_ids (es : list Scheduler.Expense) : list string :=
  flat_map (fun e => match Scheduler.e_email_id e with Some i => [i] | None => [] end) es.

(** The range of a plausible amount. *)
Definition in_range (x : Q) : Prop := (1 <= x)%Q /\ (x <= 10000)%Q.



(** A message can be extracted: for some state of the database the body of
    the [try] block of [process_email] yields an expense. *)
Definition extractable (W : world) (M : ML.models) (user : Scheduler.User)
    (service : string -> res Message) (mid : string) : Prop :=
  exists st r, Scheduler.fetch_and_extract W M st user service mid = Ok (Some r).

(** A service for the mailbox of the sample world: the listing names the
    second receipt twice, an unknown message and the first receipt. *)
Definition sample_service : Scheduler.Service :=
  {| Scheduler.list_messages := Ok ["m-2"; "m-404"; "m-2"; "m-1"];
     Scheduler.get_message := mailbox |}.

(** Group 1, when it is set, holds a text that satisfies [P]. *)
Definition good (P : string -> Prop) (g : option string) : Prop :=
  match g with
  | Some w => P w
  | None => True
  end.

(** Every character of a text is in a class. *)
Fixpoint all_chars (p : ascii -> bool) (w : string) : bool :=
  match w with
  | EmptyString => true
  | String c w' => p c && all_chars p w'
  end.

Definition digit_or_comma (c : ascii) : bool := Py.is_digit c || Ascii.eqb c ",".

(** A text [float] reads, once its commas are removed, as a number that is
    not negative. *)
Definition amount_text (w : string) : Prop :=
  exists q, Py.float_of (Py.remove_char "," w) = Some q /\ (0 <= q)%Q.

(** * Properties *)

(** ** The matcher *)

Section Matcher.
Import Re.
Context {A : Type}.

(** A success of the loop is a success of the continuation, reached with
    group 1 set when it was set before or an iteration had to set it. *)
Lemma rep_loop_group
    (body : string -> option string -> (string -> option string -> option A) -> option A)
    (sets : bool) (greedy : bool) (lo : nat) (hi : option nat)
    (k : string -> option string -> option A) :
  (forall s g k' a, body s g k' = Some a ->
     exists s1 g1, k' s1 g1 = Some a
                   /\ (sets = true \/ is_set g = true -> is_set g1 = true)) ->
  forall fuel n s g a,
    rep_loop body greedy lo hi k fuel n s g = Some a ->
    exists s1 g1, k s1 g1 = Some a
                  /\ (is_set g = true \/ (sets = true /\ n < lo) -> is_set g1 = true).
Proof.
  intros Hbody. induction fuel as [|fuel IH]; intros n s g a H; simpl in H.
  - destruct (lo <=? n) eqn:Hlo; [|discriminate]. apply Nat.leb_le in Hlo.
    exists s, g. split; [exact H|]. intros [Hg|[_ Hn]]; [exact Hg | lia].
  - assert (forall x,
              (if lo <=? n then k s g else None) = Some x ->
              exists s1 g1, k s1 g1 = Some x
                /\ (is_set g = true \/ (sets = true /\ n < lo) -> is_set g1 = true))
      as Hstop.
    { intros x Hx. destruct (lo <=? n) eqn:Hlo; [|discriminate]. apply Nat.leb_le in Hlo.
      exists s, g. split; [exact Hx|]. intros [Hg|[_ Hn]]; [exact Hg | lia]. }
    assert (forall x,
              (if below n hi
               then body s g (fun s1 g1 =>
                      if String.length s1 <? String.length s
                      then rep_loop body greedy lo hi k fuel (S n) s1 g1 else None)
               else None) = Some x ->
              exists s1 g1, k s1 g1 = Some x
                /\ (is_set g = true \/ (sets = true /\ n < lo) -> is_set g1 = true))
      as Hmore.
    { intros x Hx. destruct (below n hi); [|discriminate].
      destruct (Hbody _ _ _ _ Hx) as (s1 & g1 & Hk & Hg1).
      destruct (String.length s1 <? String.length s); [|discriminate].
      destruct (IH _ _ _ _ Hk) as (s2 & g2 & Hk2 & Hg2).
      exists s2, g2. split; [exact Hk2|].
      intros Hpre. apply Hg2. left. apply Hg1.
      destruct Hpre as [Hg|[Hs _]]; [right; exact Hg | left; exact Hs]. }
    destruct greedy.
    + destruct (if below n hi then _ else None) as [x|] eqn:E.
      * injection H as ->. apply Hmore. reflexivity.
      * apply Hstop, H.
    + destruct (if lo <=? n then k s g else None) as [x|] eqn:E.
      * injection H as ->. apply Hstop. reflexivity.
      * apply Hmore, H.
Qed.

Lemma run_group (r : regex) :
  forall s g (k : string -> option string -> option A) a,
    run r s g k = Some a ->
    exists s1 g1, k s1 g1 = Some a
                  /\ (sets_group r = true \/ is_set g = true -> is_set g1 = true).
Proof.
  induction r as [|p|r1 IH1 r2 IH2|r1 IH1 r2 IH2|greedy lo hi r1 IH1|r1 IH1|];
    intros s g k a H; simpl in H.
  - exists s, g. split; [exact H|]. intros [Hf|Hg]; [discriminate|exact Hg].
  - destruct s as [|c s']; [discriminate|]. destruct (p c); [|discriminate].
    exists s', g. split; [exact H|]. intros [Hf|Hg]; [discriminate|exact Hg].
  - destruct (IH1 _ _ _ _ H) as (s1 & g1 & H1 & G1).
    destruct (IH2 _ _ _ _ H1) as (s2 & g2 & H2 & G2).
    exists s2, g2. split; [exact H2|]. simpl. rewrite orb_true_iff.
    intros [[Hs|Hs]|Hg]; auto.
  - simpl. destruct (run r1 s g k) as [x|] eqn:E.
    + injection H as ->. destruct (IH1 _ _ _ _ E) as (s1 & g1 & H1 & G1).
      exists s1, g1. split; [exact H1|]. rewrite andb_true_iff. intros [[Hs _]|Hg]; auto.
    + destruct (IH2 _ _ _ _ H) as (s1 & g1 & H1 & G1).
      exists s1, g1. split; [exact H1|]. rewrite andb_true_iff. intros [[_ Hs]|Hg]; auto.
  - destruct (rep_loop_group (run r1) (sets_group r1) greedy lo hi k IH1 _ _ _ _ _ H)
      as (s1 & g1 & H1 & G1).
    exists s1, g1. split; [exact H1|].
    change (sets_group (Rep greedy lo hi r1)) with ((1 <=? lo) && sets_group r1).
    rewrite andb_true_iff, Nat.leb_le.
    intros [[Hlo Hs]|Hg]; apply G1; [right; split; [exact Hs | lia] | left; exact Hg].
  - destruct (IH1 _ _ _ _ H) as (s1 & g1 & H1 & _).
    exists s1, (Some (consumed s s1)). split; [exact H1|]. reflexivity.
  - destruct (at_end s); [|discriminate].
    exists s, g. split; [exact H|]. intros [Hf|Hg]; [discriminate|exact Hg].
Qed.

(** The loop calls its continuation on what is left of the subject: never on
    a longer text, and on a shorter one while iterations are still due. *)
Lemma rep_loop_local
    (body : string -> option string -> (string -> option string -> option A) -> option A)
    (greedy : bool) (lo : nat) (hi : option nat) :
  (forall s g k1 k2, (forall s1 g1, k1 s1 g1 = k2 s1 g1) -> body s g k1 = body s g k2) ->
  forall fuel n s g k1 k2,
    (forall s1 g1,
        String.length s1 <= String.length s ->
        (n < lo -> String.length s1 < String.length s) ->
        k1 s1 g1 = k2 s1 g1) ->
    rep_loop body greedy lo hi k1 fuel n s g = rep_loop body greedy lo hi k2 fuel n s g.
Proof.
  intros Hbody. induction fuel as [|fuel IH]; intros n s g k1 k2 Hk; simpl.
  - destruct (lo <=? n) eqn:Hlo; [|reflexivity]. apply Nat.leb_le in Hlo.
    apply Hk; lia.
  - assert ((if lo <=? n then k1 s g else None) = (if lo <=? n then k2 s g else None))
      as ->.
    { destruct (lo <=? n) eqn:Hlo; [|reflexivity]. apply Nat.leb_le in Hlo.
      apply Hk; lia. }
    rewrite (Hbody s g
               (fun s1 g1 => if String.length s1 <? String.length s
                             then rep_loop body greedy lo hi k1 fuel (S n) s1 g1 else None)
               (fun s1 g1 => if String.length s1 <? String.length s
                             then rep_loop body greedy lo hi k2 fuel (S n) s1 g1 else None));
      [reflexivity|].
    intros s1 g1. destruct (String.length s1 <? String.length s) eqn:Hlt; [|reflexivity].
    apply Nat.ltb_lt in Hlt. apply IH. intros s2 g2 Hle _. apply Hk; lia.
Qed.

(** [run] calls its continuation on what is left of the subject, which is
    shorter than the subject when the pattern is consuming. *)
Lemma run_local (r : regex) :
  forall s g (k1 k2 : string -> option string -> option A),
    (forall s1 g1,
        String.length s1 <= String.length s ->
        (consuming r = true -> String.length s1 < String.length s) ->
        k1 s1 g1 = k2 s1 g1) ->
    run r s g k1 = run r s g k2.
Proof.
  induction r as [|p|r1 IH1 r2 IH2|r1 IH1 r2 IH2|greedy lo hi r1 IH1|r1 IH1|];
    intros s g k1 k2 Hk; simpl.
  - apply Hk; [lia | discriminate].
  - destruct s as [|c s']; [reflexivity|]. destruct (p c); [|reflexivity].
    apply Hk; simpl; lia.
  - apply IH1. intros s1 g1 Hle1 Hlt1. apply IH2. intros s2 g2 Hle2 Hlt2.
    apply Hk; [lia|]. simpl. rewrite orb_true_iff. intros [Hc|Hc].
    + specialize (Hlt1 Hc). lia.
    + specialize (Hlt2 Hc). lia.
  - rewrite (IH1 s g k1 k2), (IH2 s g k1 k2); [reflexivity| |];
      intros s1 g1 Hle Hlt; apply Hk; try exact Hle;
      simpl; rewrite andb_true_iff; intros [Hc1 Hc2]; auto.
  - apply rep_loop_local.
    + intros s0 g0 c1 c2 Hc. apply IH1. intros s1 g1 _ _. apply Hc.
    + intros s1 g1 Hle Hlt. apply Hk; [exact Hle|].
      change (consuming (Rep greedy lo hi r1)) with ((1 <=? lo) && consuming r1).
      rewrite andb_true_iff, Nat.leb_le. intros [Hlo _]. apply Hlt. lia.
  - apply IH1. intros s1 g1 Hle Hlt. apply Hk; assumption.
  - destruct (at_end s); [|reflexivity]. apply Hk; [lia | discriminate].
Qed.

Lemma run_ext (r : regex) s g (k1 k2 : string -> option string -> option A) :
  (forall s1 g1, k1 s1 g1 = k2 s1 g1) -> run r s g k1 = run r s g k2.
Proof. intros H. apply run_local. intros s1 g1 _ _. apply H. Qed.

(** When the body of a quantifier is consuming, the test that an iteration
    has consumed a character never fails. *)
Lemma iteration_consumes (r : regex) s g (k : string -> option string -> option A) :
  consuming r = true ->
  run r s g (fun s1 g1 => if String.length s1 <? String.length s then k s1 g1 else None)
  = run r s g k.
Proof.
  intros Hc. apply run_local. intros s1 g1 _ Hlt.
  specialize (Hlt Hc). apply Nat.ltb_lt in Hlt. rewrite Hlt. reflexivity.
Qed.

(** A match needs a success of the continuation. *)
Lemma run_strict (r : regex) s g : run r s g (fun _ _ => @None A) = None.
Proof.
  destruct (run r s g (fun _ _ => None)) as [a|] eqn:E; [|reflexivity].
  destruct (run_group r _ _ _ _ E) as (s1 & g1 & H & _). discriminate.
Qed.

(** The length of the subject is fuel enough: more fuel gives the same
    result. *)
Lemma rep_loop_fuel (r : regex) (greedy : bool) (lo : nat) (hi : option nat)
    (k : string -> option string -> option A) :
  forall fuel1 fuel2 n s g,
    String.length s <= fuel1 -> String.length s <= fuel2 ->
    rep_loop (run r) greedy lo hi k fuel1 n s g
    = rep_loop (run r) greedy lo hi k fuel2 n s g.
Proof.
  assert (forall fuel n s g, String.length s = 0 ->
            rep_loop (run r) greedy lo hi k fuel n s g
            = (if lo <=? n then k s g else None)) as Hzero.
  { intros [|fuel] n s g Hs; simpl; [reflexivity|].
    assert (run r s g (fun s1 g1 =>
              if String.length s1 <? String.length s
              then rep_loop (run r) greedy lo hi k fuel (S n) s1 g1 else None) = None) as E.
    { transitivity (run r s g (fun _ _ => @None A)); [|apply run_strict].
      apply run_ext. intros s1 g1.
      destruct (String.length s1 <? String.length s) eqn:Hlt; [|reflexivity].
      apply Nat.ltb_lt in Hlt. lia. }
    rewrite E. destruct greedy, (below n hi), (if lo <=? n then k s g else None);
      reflexivity. }
  induction fuel1 as [|fuel1 IH]; intros fuel2 n s g H1 H2.
  - rewrite !Hzero by lia. reflexivity.
  - destruct fuel2 as [|fuel2]; [rewrite !Hzero by lia; reflexivity|].
    simpl.
    rewrite (run_ext r s g
               (fun s1 g1 => if String.length s1 <? String.length s
                             then rep_loop (run r) greedy lo hi k fuel1 (S n) s1 g1
                             else None)
               (fun s1 g1 => if String.length s1 <? String.length s
                             then rep_loop (run r) greedy lo hi k fuel2 (S n) s1 g1
                             else None)); [reflexivity|].
    intros s1 g1. destruct (String.length s1 <? String.length s) eqn:Hlt; [|reflexivity].
    apply Nat.ltb_lt in Hlt. apply IH; lia.
Qed.
End Matcher.

(** A match of a pattern that sets group 1 on every path has its group. *)
Lemma search_group (r : Re.regex) (s : string) (m : Re.rmatch) :
  Re.sets_group r = true ->
  Re.search r s = Some m ->
  Re.m_group m = Some (Re.group1 m).
Proof.
  intros Hr. unfold Re.search. generalize 0 as pos. induction s as [|c s IH]; intros pos; simpl.
  - destruct (Re.match_at r pos "") as [m0|] eqn:E; [|discriminate].
    intros [= <-]. unfold Re.match_at in E.
    destruct (run_group r _ _ _ _ E) as (s1 & g1 & [= <-] & G).
    unfold Re.group1. simpl. destruct g1; [reflexivity|]. discriminate G. auto.
  - destruct (Re.match_at r pos (String c s)) as [m0|] eqn:E.
    + intros [= <-]. unfold Re.match_at in E.
      destruct (run_group r _ _ _ _ E) as (s1 & g1 & [= <-] & G).
      unfold Re.group1. simpl. destruct g1; [reflexivity|]. discriminate G. auto.
    + apply IH.
Qed.

(** Every pattern of the program sets its group on every path, and all its
    quantified sub-patterns consume a character at each iteration. *)
Lemma program_patterns_shape :
  forallb (fun r => Re.sets_group r && Re.well_quantified r) program_patterns = true.
Proof. vm_compute. reflexivity. Qed.

(** ** The connection registry *)

Section Registry.
Import WS.
Variable accept : WebSocket -> res unit.

Lemma no_empty_list_empty : no_empty_list ∅.
Proof. intros u l H. rewrite lookup_empty in H. discriminate. Qed.

Lemma connect_no_empty_list ac ws u :
  no_empty_list ac -> no_empty_list (snd (connect accept ac ws u)).
Proof.
  intros Hinv. unfold connect.
  destruct (accept ws) as [[]|e]; simpl; [|exact Hinv].
  destruct (ac !! u) as [l|] eqn:Hu.
  - rewrite Hu. simpl. intros v k Hv.
    destruct (decide (u = v)) as [->|Hne].
    + rewrite lookup_insert_eq in Hv. injection Hv as <-.
      destruct l; discriminate.
    + rewrite lookup_insert_ne in Hv by exact Hne. eauto.
  - rewrite lookup_insert_eq. simpl. intros v k Hv.
    destruct (decide (u = v)) as [->|Hne].
    + rewrite lookup_insert_eq in Hv. injection Hv as <-. discriminate.
    + rewrite !lookup_insert_ne in Hv by exact Hne. eauto.
Qed.

Lemma disconnect_no_empty_list ac ws u :
  no_empty_list ac -> no_empty_list (disconnect ac ws u).
Proof.
  intros Hinv. unfold disconnect.
  destruct (ac !! u) as [l|] eqn:Hu; [|exact Hinv].
  destruct (if mem ws l then remove_first ws l else l) as [|x l'] eqn:Hl.
  - intros v k Hv. destruct (decide (u = v)) as [->|Hne].
    + rewrite lookup_delete_eq in Hv. discriminate.
    + rewrite lookup_delete_ne in Hv by exact Hne. eauto.
  - intros v k Hv. destruct (decide (u = v)) as [->|Hne].
    + rewrite lookup_insert_eq in Hv. injection Hv as <-. discriminate.
    + rewrite lookup_insert_ne in Hv by exact Hne. eauto.
Qed.

Lemma step_no_empty_list ac c : no_empty_list ac -> no_empty_list (step accept ac c).
Proof.
  destruct c; simpl; [apply connect_no_empty_list | apply disconnect_no_empty_list].
Qed.

Lemma fold_step_no_empty_list calls ac :
  no_empty_list ac -> no_empty_list (fold_left (step accept) calls ac).
Proof.
  revert ac. induction calls as [|c calls IH]; intros ac Hinv; simpl; [exact Hinv|].
  apply IH, step_no_empty_list, Hinv.
Qed.

(** A connect that is accepted leaves the socket in the list of its user. *)
Lemma connect_registers ac ws u :
  accept ws = Ok tt ->
  exists l, snd (connect accept ac ws u) !! u = Some (l ++ [ws])%list.
Proof.
  intros Hacc. unfold connect. rewrite Hacc.
  destruct (ac !! u) as [l|] eqn:Hu.
  - rewrite Hu. simpl. exists l. apply lookup_insert_eq.
  - rewrite lookup_insert_eq. simpl. exists []. apply lookup_insert_eq.
Qed.
End Registry.

(** C10. Whatever sequence of [connect] and [disconnect] calls is made on a
    fresh [ConnectionManager], and whether or not each [accept] succeeds,
    every user id that is a key of [active_connections] maps to a non-empty
    list of connections. *)
Theorem C10_registry_has_no_empty_list :
  forall (accept : WS.WebSocket -> res unit) (calls : list WS.call)
         (u : Z) (l : list WS.WebSocket),
    WS.run accept calls !! u = Some l -> l <> [].
Proof.
  intros accept calls u l H.
  exact (fold_step_no_empty_list accept calls ∅ (no_empty_list_empty) u l H).
Qed.

Lemma C10_witness :
  WS.run (fun _ => Ok tt)
    [WS.Connect 1 7%Z; WS.Connect 2 7%Z; WS.Disconnect 1 7%Z] !! 7%Z = Some [2]
  /\ [2] <> [].
Proof.
  split; [vm_compute; reflexivity|].
  apply (C10_registry_has_no_empty_list (fun _ => Ok tt)
           [WS.Connect 1 7%Z; WS.Connect 2 7%Z; WS.Disconnect 1 7%Z] 7%Z [2]).
  vm_compute. reflexivity.
Defined.

(** ** The extraction validator *)






(** ** The categoriser of gmail_integration.py *)

Section Categoriser.
Import Gmail.



(** When no merchant rule applies the later rules decide, in their order. *)
Lemma categorize_without_merchant_rule (W : world) (st : db) (e : Expense) (uid : Z) :
  merchant_rule merchant_rules (Py.lower (e_merchant e)) (user_dict st uid) = None ->
  e_category_id (categorize_expense W st e uid)
  = match seasonal_rule (now W) (Py.lower (e_description e)) (user_dict st uid) with
    | Some c => Some c
    | None =>
        match travel_rule (Py.lower (e_description e)) (user_dict st uid) with
        | Some c => Some c
        | None =>
            match default_rule (user_dict st uid) with
            | Some c => Some c
            | None => e_category_id e
            end
        end
    end.
Proof.
  intros H. unfold categorize_expense. fold (user_dict st uid). rewrite H.
  destruct (seasonal_rule _ _ _); [reflexivity|].
  destruct (travel_rule _ _); [reflexivity|].
  destruct (default_rule _); reflexivity.
Qed.
End Categoriser.



(** ** The heuristic extractor of gmail_integration.py *)

Section Heuristics.
Import Re Gmail.



(** A match of [first_match] is a match of one pattern of the list, before
    which no pattern matches. *)
Lemma first_match_inv (ps : list regex) (text : string) (m : rmatch) :
  first_match ps text = Some m ->
  exists before r after,
    ps = (before ++ r :: after)%list
    /\ Forall (fun p => search p text = None) before
    /\ search r text = Some m.
Proof.
  induction ps as [|p ps IH]; simpl; [discriminate|].
  destruct (search p text) as [m0|] eqn:Hp.
  - intros [= <-]. exists [], p, ps. repeat split; [constructor | exact Hp].
  - intros H. destruct (IH H) as (before & r & after & -> & Hb & Hr).
    exists (p :: before), r, after. repeat split; [constructor; assumption | exact Hr].
Qed.

(** With no merchant in the subject nor in the text, the extractor reaches
    the sender fall-back and stops on the unbound name [message]. *)
Lemma extract_without_merchant (W : world) (text subject : string) (a : option Q) :
  extract_amount (clean_text W text) = Ok a ->
  find_merchant (clean_text W text) subject = None ->
  extract_expense_details W module_globals text subject = Raise NameError.
Proof.
  intros Ha Hm. unfold extract_expense_details. rewrite Ha. simpl. rewrite Hm.
  reflexivity.
Qed.

(** With [message] bound the fall-back names the merchant after the domain
    of the sender. *)
Example sender_fallback_when_bound :
  extract_expense_details december (<["message" := from_acme]> ∅)
    "Your total is $45.00" "Hello"
  = Ok (Some {| amount := 45; merchant := "Acme"; description := None |}).
Proof. vm_compute. reflexivity. Qed.
End Heuristics.

(** C2. The heuristic extractor is claimed to return a candidate or nothing
    for every subject and body, also through the sender-domain fall-back.
    On a body with an amount and no merchant in subject or body the
    extractor of gmail_integration.py raises [NameError]: the fall-back
    reads [message], a name that is bound in [process_email_message] only. *)
Theorem C2_sender_fallback_raises :
  forall W : world,
    Gmail.extract_expense_details W Gmail.module_globals "Your total is $45.00" "Hello"
    = Raise NameError.
Proof. intros W. vm_compute. reflexivity. Qed.




(** ** The body extractor of task_scheduler.py *)

Section BodyExtractor.
Import Scheduler.
Variable W : world.

Lemma first_plain_empty (ps : list Part) :
  forallb (fun part => negb (has_text_data part)) ps = true ->
  first_plain ps = Ok EmptyString.
Proof.
  induction ps as [|part ps IH]; simpl; [reflexivity|].
  rewrite andb_true_iff, negb_true_iff. intros [Hp Hps].
  unfold has_text_data in Hp.
  destruct (String.eqb (mimeType part) "text/plain"); simpl in *.
  - rewrite Hp. apply IH, Hps.
  - apply IH, Hps.
Qed.

Lemma first_html_empty (ps : list Part) :
  forallb (fun part => negb (has_text_data part)) ps = true ->
  first_html W ps = Ok EmptyString.
Proof.
  induction ps as [|part ps IH]; simpl; [reflexivity|].
  rewrite andb_true_iff, negb_true_iff. intros [Hp Hps].
  unfold has_text_data in Hp.
  destruct (String.eqb (mimeType part) "text/html"); simpl in *.
  - rewrite orb_true_r in Hp. simpl in Hp. rewrite Hp. apply IH, Hps.
  - apply IH, Hps.
Qed.

Lemma extract_email_body_empty (pl : Payload) :
  empty_body pl = true -> extract_email_body W pl = Ok EmptyString.
Proof.
  unfold empty_body, extract_email_body.
  destruct (parts pl) as [ps|].
  - intros H. rewrite (first_plain_empty ps H). simpl. apply first_html_empty, H.
  - rewrite negb_true_iff. intros ->. reflexivity.
Qed.

Lemma extract_email_body_undecodable (pl : Payload) (e : exn) :
  parts pl = None ->
  truthy (get_data (body pl)) = true ->
  Codec.decode_body (get_data (body pl)) = Raise e ->
  extract_email_body W pl = Raise e.
Proof.
  intros Hp Ht Hd. unfold extract_email_body. rewrite Hp, Ht. exact Hd.
Qed.

(** An exception of the extractor is caught by [process_email]: the run is
    logged as failed and the session is rolled back. *)
Lemma process_email_body_failure (M : ML.models) (st : db) (user : User)
    (service : string -> res Message) (message_id : string) (message : Message)
    (e : exn) :
  find (has_email_id message_id) (expenses st) = None ->
  service message_id = Ok message ->
  extract_email_body W (payload message) = Raise e ->
  process_email W M st user service message_id = (Failed e, st).
Proof.
  intros Hnew Hs Hb. unfold process_email, fetch_and_extract.
  rewrite Hnew, Hs. simpl. rewrite Hb. reflexivity.
Qed.
End BodyExtractor.

(** The body selection of [process_email_message] returns the empty text
    when it selects no data. *)
Lemma body_text_empty (pl : Payload) :
  match parts pl with
  | Some ps => Gmail.select_data ps None = None \/ Gmail.select_data ps None = Some EmptyString
  | None => get_data (body pl) = EmptyString
  end ->
  Gmail.body_text pl = Ok EmptyString.
Proof.
  unfold Gmail.body_text. destruct (parts pl) as [ps|].
  - intros [-> | ->]; reflexivity.
  - intros ->. reflexivity.
Qed.

(** C5. A body that cannot be decoded does not give the empty string: with
    malformed base64 ([A], one data character) the extractor raises
    [binascii.Error], and with bytes that are not UTF-8 ([_w==], the byte
    FF) it raises [UnicodeDecodeError]; so does the body selection of
    [process_email_message]. *)
Lemma C5_counterexample :
  Scheduler.extract_email_body december (single_part [] "A") = Raise BinasciiError
  /\ Scheduler.extract_email_body december (single_part [] "_w==") = Raise UnicodeDecodeError
  /\ Gmail.body_text (single_part [] "A") = Raise BinasciiError.
Proof. repeat split; vm_compute; reflexivity. Qed.

(** C5, amended. For every payload whose body is empty, [extract_email_body]
    returns the empty string and does not raise; when the data of a
    single-part body cannot be decoded, the exception of the decoder leaves
    the extractor. *)
Theorem C5_empty_body_gives_empty_text :
  forall (W : world) (pl : Payload),
    (empty_body pl = true -> Scheduler.extract_email_body W pl = Ok EmptyString)
    /\ (forall e : exn,
          parts pl = None ->
          truthy (get_data (body pl)) = true ->
          Codec.decode_body (get_data (body pl)) = Raise e ->
          Scheduler.extract_email_body W pl = Raise e).
Proof.
  intros W pl. split.
  - apply extract_email_body_empty.
  - intros e. apply extract_email_body_undecodable.
Qed.

Lemma C5_witness :
  Scheduler.extract_email_body december
    {| headers := [];
       parts := Some [MkPart "text/plain" (MkBody None); MkPart "text/html" (MkBody (Some ""));
                      MkPart "image/png" (MkBody (Some "iVBORw0KGgo="))];
       body := MkBody None |} = Ok EmptyString
  /\ Scheduler.extract_email_body december (single_part [] "") = Ok EmptyString
  /\ Scheduler.extract_email_body december (single_part [] "_w==") = Raise UnicodeDecodeError.
Proof.
  split; [|split].
  - apply (proj1 (C5_empty_body_gives_empty_text december _)). reflexivity.
  - apply (proj1 (C5_empty_body_gives_empty_text december _)). reflexivity.
  - apply (proj2 (C5_empty_body_gives_empty_text december _) UnicodeDecodeError);
      vm_compute; reflexivity.
Defined.

(** ** The orchestrators *)

Lemma find_app_new {A : Type} (p : A -> bool) (l : list A) (x : A) :
  find p l = None -> p x = true -> find p (l ++ [x]) = Some x.
Proof.
  intros Hl Hx. induction l as [|y l IH]; simpl in *.
  - rewrite Hx. reflexivity.
  - destruct (p y); [discriminate | apply IH, Hl].
Qed.

Section GmailPipeline.
Import Gmail.

Lemma categorize_expense_fields (W : world) (st : db) (e : Expense) (uid : Z) :
  let e' := categorize_expense W st e uid in
  e_id e' = e_id e /\ e_date e' = e_date e /\ e_amount e' = e_amount e
  /\ e_merchant e' = e_merchant e /\ e_email_id e' = e_email_id e
  /\ e_user_id e' = e_user_id e.
Proof.
  unfold categorize_expense.
  destruct (merchant_rule _ _ _); [repeat split|].
  destruct (seasonal_rule _ _ _); [repeat split|].
  destruct (travel_rule _ _); [repeat split|].
  destruct (default_rule _); repeat split.
Qed.

Lemma fetch_and_extract_email_id (W : world) (st : db) (user : User) (uid : Z)
    (mid : string) (expense : Expense) :
  fetch_and_extract W st user uid mid = Ok (Some expense) ->
  e_email_id expense = Some mid /\ e_user_id expense = uid.
Proof.
  unfold fetch_and_extract.
  destruct (gmail_get W (refresh_token user) mid) as [message|]; simpl; [|discriminate].
  destruct (body_text (payload message)) as [text|]; simpl; [|discriminate].
  destruct (extract_expense_details W module_globals text _) as [[r|]|]; simpl;
    try discriminate.
  intros [= <-].
  match goal with |- context [categorize_expense W st ?e uid] =>
    destruct (categorize_expense_fields W st e uid) as (_ & _ & _ & _ & -> & ->) end.
  split; reflexivity.
Qed.

(** What a successful run has done. *)
Lemma process_email_message_success (W : world) (st st' : db) (uid id : Z) (mid : string) :
  process_email_message W st uid mid = (Ok (Success id), st') ->
  exists user expense,
    find (fun u => (u_id u =? uid)%Z) (users st) = Some user
    /\ find (has_email_id mid) (expenses st) = None
    /\ fetch_and_extract W st user uid mid = Ok (Some expense)
    /\ id = e_id expense
    /\ st' = add_expense st expense.
Proof.
  unfold process_email_message.
  destruct (find _ (users st)) as [user|]; [|discriminate].
  destruct (find _ (expenses st)) as [old|] eqn:Hold; [discriminate|].
  destruct (fetch_and_extract W st user uid mid) as [[expense|]|] eqn:Hf; try discriminate.
  intros [= <- <-]. exists user, expense. repeat split; assumption.
Qed.

(** After a run has stored an expense for a message, a run for the same
    message by any user of the table is skipped, whatever the services
    answer, and the database is left as it is. *)
Lemma process_email_message_again (W W' : world) (st st' : db) (uid uid' id : Z)
    (mid : string) (user' : User) :
  process_email_message W st uid mid = (Ok (Success id), st') ->
  find (fun u => (u_id u =? uid')%Z) (users st) = Some user' ->
  process_email_message W' st' uid' mid = (Ok (Skipped "already_processed"), st').
Proof.
  intros Hfirst Huser'.
  destruct (process_email_message_success _ _ _ _ _ _ Hfirst)
    as (user & expense & _ & Hnew & Hf & _ & ->).
  destruct (fetch_and_extract_email_id _ _ _ _ _ _ Hf) as [Hid _].
  unfold process_email_message. simpl. rewrite Huser'.
  rewrite (find_app_new _ _ expense Hnew); [reflexivity|].
  unfold has_email_id. rewrite Hid. apply String.eqb_refl.
Qed.
End GmailPipeline.

Section SchedulerPipeline.
Import Scheduler.

Lemma categorize_expense_keeps (M : ML.models) (cs cs' : list Category) (e e' : Expense)
    (uid : Z) :
  categorize_expense M cs e uid = Ok (e', cs') ->
  e_date e' = e_date e /\ e_amount e' = e_amount e /\ e_merchant e' = e_merchant e
  /\ e_email_id e' = e_email_id e /\ e_user_id e' = e_user_id e.
Proof.
  unfold categorize_expense.
  destruct (predict_category M e) as [name|]; simpl; [|discriminate].
  destruct (truthy name).
  - destruct (find _ cs); intros [= <- <-]; repeat split.
  - intros [= <- <-]. repeat split.
Qed.

(** What a run that creates an expense has done. *)
Lemma process_email_created (W : world) (M : ML.models) (st st' : db) (user : User)
    (service : string -> res Message) (mid : string) (e : Expense) :
  process_email W M st user service mid = (Created e, st') ->
  exists cs,
    find (has_email_id mid) (expenses st) = None
    /\ fetch_and_extract W M st user service mid = Ok (Some (e, cs))
    /\ st' = {| categories := cs; expenses := (expenses st ++ [e])%list |}.
Proof.
  unfold process_email.
  destruct (find _ (expenses st)) as [old|]; [discriminate|].
  destruct (fetch_and_extract W M st user service mid) as [[[e0 cs]|]|]; try discriminate.
  intros [= <- <-]. exists cs. repeat split.
Qed.

(** The expense a run creates carries the fields of the candidate the
    parser returned for the body and the subject of the message. *)
Lemma fetch_and_extract_created (W : world) (M : ML.models) (st : db) (user : User)
    (service : string -> res Message) (mid : string) (e : Expense) (cs : list Category) :
  fetch_and_extract W M st user service mid = Ok (Some (e, cs)) ->
  exists message text r,
    service mid = Ok message
    /\ extract_email_body W (payload message) = Ok text
    /\ ML.extract_expense_details W M text (subject_of message) = Some r
    /\ ML.amount r = Some (e_amount e)
    /\ ML.merchant r = Some (e_merchant e)
    /\ e_date e = match ML.date r with
                  | Some x => x
                  | None => sent_date W (header_value
                                          (fun n => String.eqb (Py.lower n) "date")
                                          (headers (payload message)))
                  end
    /\ e_email_id e = Some mid
    /\ e_user_id e = u_id user.
Proof.
  unfold fetch_and_extract.
  destruct (service mid) as [message|] eqn:Hs; simpl; [|discriminate].
  destruct (extract_email_body W (payload message)) as [text|] eqn:Hb; simpl;
    [|discriminate].
  fold (subject_of message).
  destruct (ML.extract_expense_details W M text (subject_of message))
    as [[[a|] [m|] d desc]|] eqn:Hr; try discriminate.
  match goal with |- context [categorize_expense M (categories st) ?x (u_id user)] =>
    destruct (categorize_expense M (categories st) x (u_id user)) as [[e' cs']|] eqn:Hc
  end; simpl; [|discriminate].
  intros [= <- <-].
  destruct (categorize_expense_keeps _ _ _ _ _ _ Hc) as (Hd & Ha & Hm & Hi & Hu).
  exists message, text, {| ML.amount := Some a; ML.merchant := Some m; ML.date := d;
                           ML.description := desc |}.
  simpl in *. rewrite Hd, Ha, Hm, Hi, Hu. repeat split; assumption.
Qed.

(** After a run has created an expense for a message, a run for the same
    message is skipped for every user, whatever the services answer. *)
Lemma process_email_again (W W' : world) (M M' : ML.models) (st st' : db)
    (user user' : User) (service service' : string -> res Message) (mid : string)
    (e : Expense) :
  process_email W M st user service mid = (Created e, st') ->
  process_email W' M' st' user' service' mid = (AlreadyProcessed, st').
Proof.
  intros Hfirst.
  destruct (process_email_created _ _ _ _ _ _ _ _ Hfirst) as (cs & Hnew & Hf & ->).
  destruct (fetch_and_extract_created _ _ _ _ _ _ _ _ Hf)
    as (message & text & r & _ & _ & _ & _ & _ & _ & Hid & _).
  unfold process_email. simpl.
  rewrite (find_app_new _ _ e Hnew); [reflexivity|].
  unfold has_email_id. rewrite Hid. apply String.eqb_refl.
Qed.

(** The parser sets the date of every candidate it returns: the first date
    entity when it parses, the current date otherwise. *)
Lemma build_date (W : world) (amts : list Q) (mch : option string) (ds : list string)
    (desc : string) (r : ML.candidate) :
  ML.build W amts mch ds desc = Some r -> ML.date r = Some (ML.pick_date W ds).
Proof.
  unfold ML.build. destruct (ML.pick_amount amts); [|discriminate].
  intros [= <-]. reflexivity.
Qed.

Lemma extract_expense_details_date (W : world) (M : ML.models) (text subject : string)
    (r : ML.candidate) :
  ML.extract_expense_details W M text subject = Some r ->
  exists ds, ML.date r = Some (ML.pick_date W ds).
Proof.
  unfold ML.extract_expense_details.
  assert (ML.extract_with_nlp W M text subject = Some r ->
          exists ds, ML.date r = Some (ML.pick_date W ds)) as Hnlp.
  { unfold ML.extract_with_nlp. intros H. eexists. exact (build_date _ _ _ _ _ _ H). }
  destruct (ML.ner_model M) as [ner|]; [|exact Hnlp].
  destruct (ML.validate_extraction _); [|exact Hnlp].
  unfold ML.extract_with_transformers.
  destruct (ner text) as [out|]; [|discriminate].
  intros H. eexists. exact (build_date _ _ _ _ _ _ H).
Qed.

(** The date of a created expense never comes from the [Date] header. *)
Lemma process_email_date (W : world) (M : ML.models) (st st' : db) (user : User)
    (service : string -> res Message) (mid : string) (e : Expense) :
  process_email W M st user service mid = (Created e, st') ->
  exists ds, e_date e = ML.pick_date W ds.
Proof.
  intros H.
  destruct (process_email_created _ _ _ _ _ _ _ _ H) as (cs & _ & Hf & _).
  destruct (fetch_and_extract_created _ _ _ _ _ _ _ _ Hf)
    as (message & text & r & _ & _ & Hr & _ & _ & Hd & _).
  destruct (extract_expense_details_date _ _ _ _ _ Hr) as (ds & Hds).
  exists ds. rewrite Hd, Hds. reflexivity.
Qed.

(** [pick_date] with no parsable date entity is the current date. *)
Lemma pick_date_none (W : world) (ds : list string) :
  match ds with
  | first :: _ => dateutil_parse W first = None
  | [] => True
  end ->
  ML.pick_date W ds = now W.
Proof.
  unfold ML.pick_date. destruct ds as [|first rest]; [reflexivity|].
  intros ->. reflexivity.
Qed.
End SchedulerPipeline.


(** The NLP fall-back of [process_email] has no bounds check either: the
    largest amount is kept when none lies between 1 and 10000. *)
Example nlp_fallback_out_of_bounds :
  fst (Scheduler.process_email receipts spacy_large empty_store (Scheduler.MkUser 1)
         mailbox "m-1")
  = Scheduler.Created
      {| Scheduler.e_id := 1; Scheduler.e_date := MkDate 2024 12 5;
         Scheduler.e_amount := Some 999999%Q; Scheduler.e_merchant := Some "Acme";
         Scheduler.e_description := ""; Scheduler.e_category_id := Some 1%Z;
         Scheduler.e_user_id := 1; Scheduler.e_email_id := Some "m-1" |}.
Proof. vm_compute. reflexivity. Qed.



(** C4. When a call has persisted an expense for a message, a second call
    with the same user and message identifier is skipped as already
    processed and leaves the stored state unchanged; the result does not
    depend on what the mail service or the models would answer, so no
    extraction work is done.  This holds for [process_email_message] and for
    [process_email]. *)
Theorem C4_second_call_is_skipped :
  forall (W W' : world) (M M' : ML.models) (mid : string),
    (forall (st st' : Gmail.db) (uid id : Z),
        Gmail.process_email_message W st uid mid = (Ok (Gmail.Success id), st') ->
        Gmail.process_email_message W' st' uid mid
        = (Ok (Gmail.Skipped "already_processed"), st'))
    /\ (forall (st st' : Scheduler.db) (user : Scheduler.User)
              (service service' : string -> res Message) (e : Scheduler.Expense),
          Scheduler.process_email W M st user service mid = (Scheduler.Created e, st') ->
          Scheduler.process_email W' M' st' user service' mid
          = (Scheduler.AlreadyProcessed, st')).
Proof.
  intros W W' M M' mid. split.
  - intros st st' uid id Hfirst.
    destruct (process_email_message_success _ _ _ _ _ _ Hfirst) as (user & _ & Hu & _).
    exact (process_email_message_again W W' st st' uid uid id mid user Hfirst Hu).
  - intros st st' user service service' e Hfirst.
    exact (process_email_again W W' M M' st st' user user service service' mid e Hfirst).
Qed.

Lemma C4_witness :
  (let st' := snd (Gmail.process_email_message receipts two_users 1 "m-2") in
   Gmail.process_email_message december st' 1 "m-2"
   = (Ok (Gmail.Skipped "already_processed"), st'))
  /\ (let st' := snd (Scheduler.process_email receipts spacy_only empty_store
                        (Scheduler.MkUser 1) mailbox "m-2") in
      Scheduler.process_email december with_ner st' (Scheduler.MkUser 1)
        (fun _ => Raise ServiceError) "m-2"
      = (Scheduler.AlreadyProcessed, st')).
Proof.
  split.
  - apply (proj1 (C4_second_call_is_skipped receipts december spacy_only with_ner "m-2")
             two_users _ 1%Z 1%Z).
    vm_compute. reflexivity.
  - eapply (proj2 (C4_second_call_is_skipped receipts december spacy_only with_ner "m-2")
              empty_store _ (Scheduler.MkUser 1) mailbox).
    vm_compute. reflexivity.
Defined.

(** C9. The duplicate check looks at the message identifier only.  Once a
    call for a user has persisted an expense for a message, a call for
    another user with the same message identifier is skipped as already
    processed and the stored state, hence the expenses of the second user,
    is unchanged. *)
Theorem C9_dedup_ignores_the_user :
  forall (W W' : world) (M M' : ML.models) (mid : string),
    (forall (st st' : Gmail.db) (u1 u2 id : Z) (user2 : Gmail.User),
        u1 <> u2 ->
        find (fun u => (Gmail.u_id u =? u2)%Z) (Gmail.users st) = Some user2 ->
        Gmail.process_email_message W st u1 mid = (Ok (Gmail.Success id), st') ->
        Gmail.process_email_message W' st' u2 mid
        = (Ok (Gmail.Skipped "already_processed"), st'))
    /\ (forall (st st' : Scheduler.db) (user1 user2 : Scheduler.User)
              (service service' : string -> res Message) (e : Scheduler.Expense),
          Scheduler.u_id user1 <> Scheduler.u_id user2 ->
          Scheduler.process_email W M st user1 service mid = (Scheduler.Created e, st') ->
          Scheduler.process_email W' M' st' user2 service' mid
          = (Scheduler.AlreadyProcessed, st')).
Proof.
  intros W W' M M' mid. split.
  - intros st st' u1 u2 id user2 _ Hu Hfirst.
    exact (process_email_message_again W W' st st' u1 u2 id mid user2 Hfirst Hu).
  - intros st st' user1 user2 service service' e _ Hfirst.
    exact (process_email_again W W' M M' st st' user1 user2 service service' mid e Hfirst).
Qed.

Lemma C9_witness :
  (let st' := snd (Gmail.process_email_message receipts two_users 1 "m-2") in
   Gmail.process_email_message receipts st' 2 "m-2"
   = (Ok (Gmail.Skipped "already_processed"), st'))
  /\ (let st' := snd (Scheduler.process_email receipts spacy_only empty_store
                        (Scheduler.MkUser 1) mailbox "m-2") in
      Scheduler.process_email receipts spacy_only st' (Scheduler.MkUser 2) mailbox "m-2"
      = (Scheduler.AlreadyProcessed, st')).
Proof.
  split.
  - apply (proj1 (C9_dedup_ignores_the_user receipts receipts spacy_only spacy_only "m-2")
             two_users _ 1%Z 2%Z 1%Z (Gmail.MkUser 2 "bob@example.com" "token-2")).
    + discriminate.
    + reflexivity.
    + vm_compute. reflexivity.
  - eapply (proj2 (C9_dedup_ignores_the_user receipts receipts spacy_only spacy_only "m-2")
              empty_store _ (Scheduler.MkUser 1) (Scheduler.MkUser 2) mailbox).
    + discriminate.
    + vm_compute. reflexivity.
Defined.

(** C8. The date of an expense is claimed to fall back on the sent date of
    the message.  For the Acme receipt, sent on 1 January 2024 and holding
    no date entity, [process_email] run on 5 December 2024 stores the
    expense under 5 December 2024: the parser always fills in the current
    date, so the sent date read from the [Date] header is never used. *)
Theorem C8_sent_date_is_not_used :
  exists (e : Scheduler.Expense) (st' : Scheduler.db),
    Scheduler.process_email receipts spacy_only empty_store (Scheduler.MkUser 1)
      mailbox "m-2" = (Scheduler.Created e, st')
    /\ sent_date receipts
         (header_value (fun n => String.eqb (Py.lower n) "date")
            (headers (payload acme_receipt))) = MkDate 2024 1 1
    /\ Scheduler.e_date e = now receipts
    /\ Scheduler.e_date e <> MkDate 2024 1 1.
Proof.
  eexists. eexists. split; [vm_compute; reflexivity|].
  split; [vm_compute; reflexivity|]. split; [reflexivity|]. discriminate.
Qed.

(** * Further properties *)

(** ** The connection registry, continued *)

Section RegistryOps.
Import WS.
Variable accept : WebSocket -> res unit.

Lemma remove_first_app_new (ws : WebSocket) (l : list WebSocket) :
  mem ws l = false -> remove_first ws (l ++ [ws]) = l.
Proof.
  induction l as [|y l IH]; simpl.
  - intros _. rewrite Nat.eqb_refl. reflexivity.
  - rewrite orb_false_iff. intros [Hy Hl]. rewrite Hy, (IH Hl). reflexivity.
Qed.

Lemma mem_app_new (ws : WebSocket) (l : list WebSocket) : mem ws (l ++ [ws]) = true.
Proof.
  unfold mem. rewrite existsb_app. simpl. rewrite Nat.eqb_refl, orb_true_r. reflexivity.
Qed.

Lemma connect_lookup (ac : gmap Z (list WebSocket)) (ws : WebSocket) (u : Z) :
  accept ws = Ok tt ->
  snd (connect accept ac ws u)
  = <[u := (match ac !! u with Some l => l | None => [] end ++ [ws])%list]> ac.
Proof.
  intros Hacc. unfold connect. rewrite Hacc.
  destruct (ac !! u) as [l|] eqn:Hu.
  - rewrite Hu. reflexivity.
  - rewrite lookup_insert_eq. simpl. apply insert_insert_eq.
Qed.

Lemma connect_then_disconnect (ac : gmap Z (list WebSocket)) (ws : WebSocket) (u : Z) :
  accept ws = Ok tt ->
  no_empty_list ac ->
  (forall l, ac !! u = Some l -> mem ws l = false) ->
  disconnect (snd (connect accept ac ws u)) ws u = ac.
Proof.
  intros Hacc Hinv Hnew. rewrite (connect_lookup ac ws u Hacc).
  unfold disconnect. rewrite lookup_insert_eq, mem_app_new.
  destruct (ac !! u) as [l|] eqn:Hu.
  - rewrite (remove_first_app_new ws l (Hnew l eq_refl)).
    destruct l as [|x l]; [exfalso; exact (Hinv u [] Hu eq_refl)|].
    rewrite insert_insert_eq. apply insert_id, Hu.
  - simpl. rewrite Nat.eqb_refl. rewrite delete_insert_eq. apply delete_id, Hu.
Qed.

Lemma connect_other (ac : gmap Z (list WebSocket)) (ws : WebSocket) (u v : Z) :
  u <> v -> snd (connect accept ac ws u) !! v = ac !! v.
Proof.
  intros Hne. unfold connect. destruct (accept ws) as [[]|e]; [|reflexivity].
  destruct (ac !! u) as [l|] eqn:Hu.
  - rewrite Hu. simpl. apply lookup_insert_ne, Hne.
  - rewrite lookup_insert_eq. simpl. rewrite !lookup_insert_ne by exact Hne. reflexivity.
Qed.

Lemma disconnect_other (ac : gmap Z (list WebSocket)) (ws : WebSocket) (u v : Z) :
  u <> v -> disconnect ac ws u !! v = ac !! v.
Proof.
  intros Hne. unfold disconnect. destruct (ac !! u) as [l|]; [|reflexivity].
  destruct (if mem ws l then remove_first ws l else l).
  - apply lookup_delete_ne, Hne.
  - apply lookup_insert_ne, Hne.
Qed.

Lemma count_remove_first (ws x : WebSocket) (l : list WebSocket) :
  count_occ Nat.eq_dec (remove_first ws l) x
  = if mem ws l && (x =? ws) then count_occ Nat.eq_dec l x - 1
    else count_occ Nat.eq_dec l x.
Proof.
  induction l as [|y l IH]; simpl; [reflexivity|].
  destruct (ws =? y) eqn:Hwy; simpl.
  - apply Nat.eqb_eq in Hwy. subst y.
    destruct (Nat.eq_dec ws x) as [->|Hne].
    + rewrite Nat.eqb_refl. lia.
    + assert ((x =? ws) = false) as -> by (apply Nat.eqb_neq; congruence). reflexivity.
  - apply Nat.eqb_neq in Hwy. rewrite IH.
    destruct (Nat.eq_dec y x) as [->|Hne].
    + assert ((x =? ws) = false) as -> by (apply Nat.eqb_neq; congruence).
      rewrite andb_false_r. reflexivity.
    + reflexivity.
Qed.

(** The connections of a user after a disconnect. *)
Lemma disconnect_lookup (ac : gmap Z (list WebSocket)) (ws : WebSocket) (u : Z)
    (l : list WebSocket) :
  ac !! u = Some l ->
  disconnect ac ws u !! u
  = match (if mem ws l then remove_first ws l else l) with
    | [] => None
    | l' => Some l'
    end.
Proof.
  intros Hu. unfold disconnect. rewrite Hu.
  destruct (if mem ws l then remove_first ws l else l).
  - apply lookup_delete_eq.
  - apply lookup_insert_eq.
Qed.

Lemma disconnect_count (ac : gmap Z (list WebSocket)) (ws x : WebSocket) (u : Z)
    (l : list WebSocket) :
  ac !! u = Some l ->
  count_occ Nat.eq_dec
    (match disconnect ac ws u !! u with Some l' => l' | None => [] end) x
  = if mem ws l && (x =? ws) then count_occ Nat.eq_dec l x - 1
    else count_occ Nat.eq_dec l x.
Proof.
  intros Hu. pose proof (disconnect_lookup ac ws u l Hu) as E.
  unfold WebSocket in *. rewrite E.
  rewrite <- count_remove_first.
  destruct (mem ws l) eqn:Hm.
  - destruct (remove_first ws l); reflexivity.
  - assert (remove_first ws l = l) as ->.
    { clear Hu E. induction l as [|y l IH]; simpl in *; [reflexivity|].
      apply orb_false_iff in Hm as [Hy Hl]. rewrite Hy, (IH Hl). reflexivity. }
    destruct l; reflexivity.
Qed.
End RegistryOps.

Lemma send_all_ok (send : WS.WebSocket -> res unit) (l : list WS.WebSocket) :
  Forall (fun c => send c = Ok tt) l -> WS.send_all send l = (l, Ok tt).
Proof.
  intros H. induction H as [|c l Hc _ IH]; simpl; [reflexivity|].
  rewrite Hc, IH. reflexivity.
Qed.

Lemma send_all_stops (send : WS.WebSocket -> res unit) (pre post : list WS.WebSocket)
    (c : WS.WebSocket) (e : exn) :
  Forall (fun x => send x = Ok tt) pre ->
  send c = Raise e ->
  WS.send_all send (pre ++ c :: post) = (pre, Raise e).
Proof.
  intros H Hc. induction H as [|x pre Hx _ IH]; simpl.
  - rewrite Hc. reflexivity.
  - rewrite Hx, IH. reflexivity.
Qed.

(** X1. Connecting a socket that is not yet registered for the user and
    disconnecting it again gives back the registry as it was, key included:
    a user with no other connection is removed from the dictionary. *)
Theorem X1_connect_disconnect_round_trip :
  forall (accept : WS.WebSocket -> res unit) (ac : gmap Z (list WS.WebSocket))
         (ws : WS.WebSocket) (u : Z),
    accept ws = Ok tt ->
    no_empty_list ac ->
    (forall l, ac !! u = Some l -> WS.mem ws l = false) ->
    WS.disconnect (snd (WS.connect accept ac ws u)) ws u = ac.
Proof. exact connect_then_disconnect. Qed.

Lemma X1_witness :
  WS.disconnect (snd (WS.connect (fun _ => Ok tt) (<[7%Z := [1; 2]]> ∅) 3 7%Z)) 3 7%Z
  = <[7%Z := [1; 2]]> ∅.
Proof.
  apply (X1_connect_disconnect_round_trip (fun _ => Ok tt) (<[7%Z := [1; 2]]> ∅) 3 7%Z).
  - reflexivity.
  - intros u l H. destruct (decide (u = 7%Z)) as [->|Hne].
    + rewrite lookup_insert_eq in H. injection H as <-. discriminate.
    + rewrite lookup_insert_ne, lookup_empty in H by congruence. discriminate.
  - intros l H. rewrite lookup_insert_eq in H. injection H as <-. reflexivity.
Defined.

(** X2. [connect] and [disconnect] for one user leave the connections of
    every other user as they are. *)
Theorem X2_other_users_untouched :
  forall (accept : WS.WebSocket -> res unit) (ac : gmap Z (list WS.WebSocket))
         (ws : WS.WebSocket) (u v : Z),
    u <> v ->
    snd (WS.connect accept ac ws u) !! v = ac !! v
    /\ WS.disconnect ac ws u !! v = ac !! v.
Proof.
  intros accept ac ws u v Hne. split.
  - apply connect_other, Hne.
  - apply disconnect_other, Hne.
Qed.

Lemma X2_witness :
  snd (WS.connect (fun _ => Ok tt) (<[7%Z := [1; 2]]> ∅) 3 8%Z) !! 7%Z = Some [1; 2]
  /\ WS.disconnect (<[7%Z := [1; 2]]> ∅) 1 8%Z !! 7%Z = Some [1; 2].
Proof.
  destruct (X2_other_users_untouched (fun _ => Ok tt) (<[7%Z := [1; 2]]> ∅) 3 8%Z 7%Z)
    as [H1 _]; [discriminate|].
  destruct (X2_other_users_untouched (fun _ => Ok tt) (<[7%Z := [1; 2]]> ∅) 1 8%Z 7%Z)
    as [_ H2]; [discriminate|].
  split; [exact (eq_trans H1 eq_refl) | exact (eq_trans H2 eq_refl)].
Defined.

(** X3. [disconnect] removes one occurrence of the socket and nothing else:
    for every socket, the number of its entries in the list of the user
    goes down by one when it is the disconnected socket and was registered,
    and is unchanged otherwise.  A socket registered twice is still
    registered after one disconnect. *)
Theorem X3_disconnect_removes_one_entry :
  forall (ac : gmap Z (list WS.WebSocket)) (ws x : WS.WebSocket) (u : Z)
         (l : list WS.WebSocket),
    ac !! u = Some l ->
    count_occ Nat.eq_dec
      (match WS.disconnect ac ws u !! u with Some l' => l' | None => [] end) x
    = if WS.mem ws l && (x =? ws) then count_occ Nat.eq_dec l x - 1
      else count_occ Nat.eq_dec l x.
Proof. exact disconnect_count. Qed.

Lemma X3_witness :
  count_occ Nat.eq_dec
    (match WS.disconnect (<[7%Z := [1; 2; 1]]> ∅) 1 7%Z !! 7%Z with
     | Some l' => l'
     | None => []
     end) 1 = 1.
Proof.
  exact (eq_trans
           (X3_disconnect_removes_one_entry (<[7%Z := [1; 2; 1]]> ∅) 1 1 7%Z [1; 2; 1]
              (lookup_insert_eq _ _ _))
           eq_refl).
Defined.

(** X4. [broadcast_to_user] sends to the connections of the user in the
    order of their registration.  When every send succeeds, all of them
    receive the message; when a send raises, the exception leaves the
    broadcast and the connections registered after the failing one receive
    nothing. *)
Theorem X4_broadcast_stops_at_first_failure :
  forall (send : WS.WebSocket -> res unit) (ac : gmap Z (list WS.WebSocket)) (u : Z)
         (l : list WS.WebSocket),
    ac !! u = Some l ->
    (Forall (fun c => send c = Ok tt) l -> WS.broadcast_to_user send ac u = (l, Ok tt))
    /\ (forall (pre post : list WS.WebSocket) (c : WS.WebSocket) (e : exn),
          l = (pre ++ c :: post)%list ->
          Forall (fun x => send x = Ok tt) pre ->
          send c = Raise e ->
          WS.broadcast_to_user send ac u = (pre, Raise e)).
Proof.
  intros send ac u l Hu. unfold WS.broadcast_to_user. rewrite Hu. split.
  - apply send_all_ok.
  - intros pre post c e -> Hpre Hc. apply send_all_stops; assumption.
Qed.

Lemma X4_witness :
  WS.broadcast_to_user (fun c => if c =? 2 then Raise ServiceError else Ok tt)
    (<[7%Z := [1; 2; 3]]> ∅) 7%Z = ([1], Raise ServiceError)
  /\ WS.broadcast_to_user (fun _ => Ok tt) (<[7%Z := [1; 2; 3]]> ∅) 7%Z = ([1; 2; 3], Ok tt).
Proof.
  split.
  - apply (proj2 (X4_broadcast_stops_at_first_failure _ (<[7%Z := [1; 2; 3]]> ∅) 7%Z
                    [1; 2; 3] (lookup_insert_eq _ _ _)) [1] [3] 2 ServiceError).
    + reflexivity.
    + repeat constructor.
    + reflexivity.
  - apply (proj1 (X4_broadcast_stops_at_first_failure _ (<[7%Z := [1; 2; 3]]> ∅) 7%Z
                    [1; 2; 3] (lookup_insert_eq _ _ _))).
    repeat constructor.
Defined.

(** ** The categoriser of gmail_integration.py, continued *)

Section CategoryDict.
Import Gmail.

Lemma category_dict_snoc (cats : list Category) (c : Category) :
  category_dict (cats ++ [c]) = <[Py.lower (c_name c) := c_id c]> (category_dict cats).
Proof. unfold category_dict. rewrite fold_left_app. reflexivity. Qed.

(** The entry of a name is the identifier of the last category whose
    lower-cased name it is. *)
Lemma category_dict_last (cats : list Category) (k : string) (i : Z) :
  category_dict cats !! k = Some i
  <-> exists pre c post,
        cats = (pre ++ c :: post)%list
        /\ Py.lower (c_name c) = k /\ c_id c = i
        /\ Forall (fun c' => Py.lower (c_name c') <> k) post.
Proof.
  induction cats as [|c cats IH] using rev_ind.
  - split.
    + unfold category_dict. simpl. rewrite lookup_empty. discriminate.
    + intros (pre & c & post & H & _). destruct pre; discriminate.
  - rewrite category_dict_snoc.
    destruct (decide (Py.lower (c_name c) = k)) as [Hk|Hk].
    + rewrite Hk, lookup_insert_eq. split.
      * intros [= <-]. exists cats, c, []. repeat split; [exact Hk | constructor].
      * intros (pre & c0 & post & Heq & Hk0 & Hi & Hpost).
        destruct post as [|p post] using rev_ind.
        -- apply app_inj_tail in Heq as [_ <-]. rewrite Hi. reflexivity.
        -- clear IHpost. rewrite app_comm_cons, app_assoc in Heq.
           apply app_inj_tail in Heq as [_ <-].
           apply Forall_app in Hpost as [_ Hp]. inversion Hp; subst. contradiction.
    + rewrite lookup_insert_ne by exact Hk. rewrite IH. split.
      * intros (pre & c0 & post & -> & Hk0 & Hi & Hpost).
        exists pre, c0, (post ++ [c])%list. rewrite <- app_assoc. repeat split; auto.
        apply Forall_app. split; [exact Hpost | repeat constructor; exact Hk].
      * intros (pre & c0 & post & Heq & Hk0 & Hi & Hpost).
        destruct post as [|p post] using rev_ind.
        -- apply app_inj_tail in Heq as [_ <-]. contradiction.
        -- clear IHpost. rewrite app_comm_cons, app_assoc in Heq.
           apply app_inj_tail in Heq as [-> <-].
           apply Forall_app in Hpost as [Hpost _].
           exists pre, c0, post. repeat split; auto.
Qed.

Lemma category_dict_member (cats : list Category) (k : string) (i : Z) :
  category_dict cats !! k = Some i -> exists c, In c cats /\ c_id c = i.
Proof.
  rewrite category_dict_last. intros (pre & c & post & -> & _ & Hi & _).
  exists c. split; [apply in_or_app; right; left; reflexivity | exact Hi].
Qed.

Lemma merchant_rule_member (rules : list (string * list string)) (ml : string)
    (cats : list Category) (i : Z) :
  merchant_rule rules ml (category_dict cats) = Some i ->
  exists c, In c cats /\ c_id c = i.
Proof.
  induction rules as [|[category merchants] rules IH]; simpl; [discriminate|].
  destruct (any_in merchants ml); [|exact IH].
  destruct (category_dict cats !! Py.lower category) as [j|] eqn:Hj; [|exact IH].
  intros [= <-]. exact (category_dict_member _ _ _ Hj).
Qed.

(** The category [categorize_expense] sets is one of the user. *)
Lemma categorize_expense_category (W : world) (st : db) (e : Expense) (uid c : Z) :
  e_category_id (categorize_expense W st e uid) = Some c ->
  e_category_id e = Some c
  \/ exists cat, In cat (categories st) /\ c_user_id cat = uid /\ c_id cat = c.
Proof.
  assert (forall i,
            (exists cat, In cat (filter (fun c0 => (c_user_id c0 =? uid)%Z) (categories st))
                         /\ c_id cat = i) ->
            exists cat, In cat (categories st) /\ c_user_id cat = uid /\ c_id cat = i)
    as Hfilter.
  { intros i (cat & Hin & Hi). apply list_elem_of_In, list_elem_of_filter in Hin.
    destruct Hin as [Hu Hin]. apply Is_true_true, Z.eqb_eq in Hu.
    exists cat. repeat split; [apply list_elem_of_In, Hin | exact Hu | exact Hi]. }
  unfold categorize_expense.
  destruct (merchant_rule _ _ _) as [i|] eqn:H1.
  { simpl. intros [= <-]. right. apply Hfilter. exact (merchant_rule_member _ _ _ _ H1). }
  destruct (seasonal_rule _ _ _) as [i|] eqn:H2.
  { simpl. intros [= <-]. right. apply Hfilter. unfold seasonal_rule in H2.
    destruct (_ && _); [|discriminate].
    destruct (category_dict _ !! "holiday") as [j|] eqn:Hj.
    - injection H2 as <-. exact (category_dict_member _ _ _ Hj).
    - exact (category_dict_member _ _ _ H2). }
  destruct (travel_rule _ _) as [i|] eqn:H3.
  { simpl. intros [= <-]. right. apply Hfilter. unfold travel_rule in H3.
    destruct (any_in _ _); [|discriminate]. exact (category_dict_member _ _ _ H3). }
  destruct (default_rule _) as [i|] eqn:H4.
  { simpl. intros [= <-]. right. apply Hfilter. unfold default_rule in H4.
    destruct (category_dict _ !! "uncategorized") as [j|] eqn:Hj.
    - injection H4 as <-. exact (category_dict_member _ _ _ Hj).
    - exact (category_dict_member _ _ _ H4). }
  intros H. left. exact H.
Qed.
End CategoryDict.

(** X5. [categorize_expense] changes nothing of an expense but its category,
    and the category it sets is always one of the categories of the user:
    a category of another user is never assigned. *)
Theorem X5_category_belongs_to_user :
  forall (W : world) (st : Gmail.db) (e : Gmail.Expense) (uid : Z),
    let e' := Gmail.categorize_expense W st e uid in
    (Gmail.e_id e' = Gmail.e_id e /\ Gmail.e_date e' = Gmail.e_date e
     /\ Gmail.e_amount e' = Gmail.e_amount e /\ Gmail.e_merchant e' = Gmail.e_merchant e
     /\ Gmail.e_description e' = Gmail.e_description e
     /\ Gmail.e_user_id e' = Gmail.e_user_id e /\ Gmail.e_email_id e' = Gmail.e_email_id e)
    /\ forall c : Z,
         Gmail.e_category_id e' = Some c ->
         Gmail.e_category_id e = Some c
         \/ exists cat, In cat (Gmail.categories st)
                        /\ Gmail.c_user_id cat = uid /\ Gmail.c_id cat = c.
Proof.
  intros W st e uid e'. split.
  - subst e'. unfold Gmail.categorize_expense.
    destruct (Gmail.merchant_rule _ _ _); [repeat split|].
    destruct (Gmail.seasonal_rule _ _ _); [repeat split|].
    destruct (Gmail.travel_rule _ _); [repeat split|].
    destruct (Gmail.default_rule _); repeat split.
  - intros c. apply categorize_expense_category.
Qed.



Lemma X5_witness :
  Gmail.e_category_id uber_eats_gift = Some 1%Z
  \/ exists cat, In cat (Gmail.categories gift_categories)
                 /\ Gmail.c_user_id cat = 7%Z /\ Gmail.c_id cat = 1%Z.
Proof.
  apply (proj2 (X5_category_belongs_to_user december gift_categories uber_eats_gift 7) 1%Z).
  vm_compute. reflexivity.
Defined.

(** ** [process_email_message] and the stored expenses *)

Lemma max_id_bound (ids : list Z) (i : Z) :
  In i ids -> (i <= fold_right Z.max 0 ids)%Z.
Proof.
  induction ids as [|j ids IH]; simpl; [contradiction|].
  intros [->|H]; [lia|]. specialize (IH H). lia.
Qed.

Section GmailStore.
Import Gmail.

Lemma next_id_fresh (es : list Expense) : ~ In (next_id es) (map e_id es).
Proof.
  intros H. apply max_id_bound in H. unfold next_id in H. lia.
Qed.

Lemma email_ids_app (es1 es2 : list Expense) :
  email_ids (es1 ++ es2) = (email_ids es1 ++ email_ids es2)%list.
Proof. unfold email_ids. apply flat_map_app. Qed.

Lemma not_stored_email_id (es : list Expense) (mid : string) :
  find (has_email_id mid) es = None -> ~ In mid (email_ids es).
Proof.
  induction es as [|e es IH]; simpl; [auto|].
  destruct (has_email_id mid e) eqn:He; [discriminate|].
  intros Hf Hin. apply in_app_or in Hin as [Hin|Hin]; [|exact (IH Hf Hin)].
  unfold has_email_id in He. destruct (e_email_id e) as [i|]; [|contradiction].
  destruct Hin as [->|[]]. rewrite String.eqb_refl in He. discriminate.
Qed.

Lemma fetch_and_extract_id (W : world) (st : db) (user : User) (uid : Z)
    (mid : string) (expense : Expense) :
  fetch_and_extract W st user uid mid = Ok (Some expense) ->
  e_id expense = next_id (expenses st).
Proof.
  unfold fetch_and_extract.
  destruct (gmail_get W (refresh_token user) mid) as [message|]; simpl; [|discriminate].
  destruct (body_text (payload message)) as [text|]; simpl; [|discriminate].
  destruct (extract_expense_details W module_globals text _) as [[r|]|]; simpl;
    try discriminate.
  intros [= <-].
  match goal with |- context [categorize_expense W st ?e uid] =>
    destruct (categorize_expense_fields W st e uid) as (-> & _) end.
  reflexivity.
Qed.

(** A run changes the database only when it succeeds, and then by one
    appended expense. *)
Lemma process_email_message_effect (W : world) (st st' : db) (uid : Z) (mid : string)
    (r : res outcome) :
  process_email_message W st uid mid = (r, st') ->
  (st' = st /\ forall id, r <> Ok (Success id))
  \/ exists e,
       r = Ok (Success (e_id e)) /\ st' = add_expense st e
       /\ find (has_email_id mid) (expenses st) = None
       /\ e_email_id e = Some mid /\ e_user_id e = uid
       /\ e_id e = next_id (expenses st).
Proof.
  unfold process_email_message.
  destruct (find _ (users st)) as [user|].
  2: { intros [= <- <-]. left. split; [reflexivity | discriminate]. }
  destruct (find _ (expenses st)) as [old|] eqn:Hold.
  { intros [= <- <-]. left. split; [reflexivity | discriminate]. }
  destruct (fetch_and_extract W st user uid mid) as [[e|]|x] eqn:Hf.
  - intros [= <- <-]. right. exists e.
    destruct (fetch_and_extract_email_id _ _ _ _ _ _ Hf) as [Hm Hu].
    repeat split; try assumption. exact (fetch_and_extract_id _ _ _ _ _ _ Hf).
  - intros [= <- <-]. left. split; [reflexivity | discriminate].
  - intros [= <- <-]. left. split; [reflexivity | discriminate].
Qed.

Lemma add_expense_unique (st : db) (e : Expense) (mid : string) :
  find (has_email_id mid) (expenses st) = None ->
  e_email_id e = Some mid ->
  e_id e = next_id (expenses st) ->
  (NoDup (map e_id (expenses st)) -> NoDup (map e_id (expenses (add_expense st e))))
  /\ (NoDup (email_ids (expenses st)) -> NoDup (email_ids (expenses (add_expense st e)))).
Proof.
  intros Hnew He Hid. simpl. split; intros Hnd.
  - rewrite map_app. apply NoDup_app. split; [exact Hnd|]. split.
    + intros x Hx Hx'. apply list_elem_of_In in Hx, Hx'. destruct Hx' as [<-|[]].
      rewrite Hid in Hx. exact (next_id_fresh _ Hx).
    + simpl. apply NoDup_singleton.
  - rewrite email_ids_app. apply NoDup_app. split; [exact Hnd|]. split.
    + intros x Hx Hx'. apply list_elem_of_In in Hx, Hx'. simpl in Hx'. rewrite He in Hx'.
      destruct Hx' as [<-|[]]. exact (not_stored_email_id _ _ Hnew Hx).
    + simpl. rewrite He. apply NoDup_singleton.
Qed.
End GmailStore.

(** X7. [process_email_message] never touches the users and the categories
    and never changes or removes a stored expense.  The database is changed
    only by a successful run, which appends one expense: that of the user
    and the message of the call, under a new primary key. *)
Theorem X7_run_only_appends_its_expense :
  forall (W : world) (st st' : Gmail.db) (uid : Z) (mid : string) (r : res Gmail.outcome),
    Gmail.process_email_message W st uid mid = (r, st') ->
    Gmail.users st' = Gmail.users st
    /\ Gmail.categories st' = Gmail.categories st
    /\ ((Gmail.expenses st' = Gmail.expenses st /\ forall id, r <> Ok (Gmail.Success id))
        \/ exists e,
             r = Ok (Gmail.Success (Gmail.e_id e))
             /\ Gmail.expenses st' = (Gmail.expenses st ++ [e])%list
             /\ Gmail.e_email_id e = Some mid /\ Gmail.e_user_id e = uid
             /\ ~ In (Gmail.e_id e) (map Gmail.e_id (Gmail.expenses st))).
Proof.
  intros W st st' uid mid r H.
  destruct (process_email_message_effect _ _ _ _ _ _ H)
    as [[-> Hr]|(e & -> & -> & _ & Hm & Hu & Hid)].
  - repeat split. left. split; [reflexivity | exact Hr].
  - repeat split. right. exists e. repeat split; try assumption.
    rewrite Hid. apply next_id_fresh.
Qed.

Lemma X7_witness :
  exists e,
    Gmail.expenses (snd (Gmail.process_email_message receipts two_users 1 "m-2")) = [e]
    /\ Gmail.e_email_id e = Some "m-2" /\ Gmail.e_user_id e = 1%Z.
Proof.
  destruct (X7_run_only_appends_its_expense receipts two_users
              (snd (Gmail.process_email_message receipts two_users 1 "m-2")) 1 "m-2"
              (fst (Gmail.process_email_message receipts two_users 1 "m-2")))
    as (_ & _ & [[_ Hr]|(e & _ & He & Hm & Hu & _)]).
  - vm_compute. reflexivity.
  - exfalso. apply (Hr 1%Z). vm_compute. reflexivity.
  - exists e. split; [exact He|]. split; assumption.
Defined.

(** X8. The duplicate check keeps the message identifiers of the stored
    expenses distinct, and the new primary key keeps the primary keys
    distinct: a run of [process_email_message] preserves both, so the
    unique constraint on [email_id] is never violated by the pipeline. *)
Theorem X8_run_keeps_identifiers_unique :
  forall (W : world) (st st' : Gmail.db) (uid : Z) (mid : string) (r : res Gmail.outcome),
    Gmail.process_email_message W st uid mid = (r, st') ->
    (NoDup (map Gmail.e_id (Gmail.expenses st)) ->
     NoDup (map Gmail.e_id (Gmail.expenses st')))
    /\ (NoDup (email_ids (Gmail.expenses st)) -> NoDup (email_ids (Gmail.expenses st'))).
Proof.
  intros W st st' uid mid r H.
  destruct (process_email_message_effect _ _ _ _ _ _ H)
    as [[-> _]|(e & _ & -> & Hnew & Hm & _ & Hid)].
  - split; auto.
  - exact (add_expense_unique st e mid Hnew Hm Hid).
Qed.

Lemma X8_witness :
  let st1 := snd (Gmail.process_email_message receipts two_users 1 "m-1") in
  let st2 := snd (Gmail.process_email_message receipts st1 2 "m-2") in
  NoDup (map Gmail.e_id (Gmail.expenses st2)) /\ NoDup (email_ids (Gmail.expenses st2)).
Proof.
  intros st1 st2.
  pose proof (X8_run_keeps_identifiers_unique receipts two_users st1 1 "m-1"
                (fst (Gmail.process_email_message receipts two_users 1 "m-1")) eq_refl)
    as [Ha1 Hb1].
  pose proof (X8_run_keeps_identifiers_unique receipts st1 st2 2 "m-2"
                (fst (Gmail.process_email_message receipts st1 2 "m-2")) eq_refl)
    as [Ha2 Hb2].
  split.
  - apply Ha2, Ha1. constructor.
  - apply Hb2, Hb1. constructor.
Defined.

(** ** The body of a multi-part message *)

Section PlainFirst.
Variable W : world.




End PlainFirst.





(** ** The choices of the ML e-mail parser *)

Section Choices.
Import ML.

Lemma max_of_spec (l : list Q) :
  forall a, In (max_of a l) (a :: l) /\ forall x, In x (a :: l) -> (x <= max_of a l)%Q.
Proof.
  induction l as [|y l IH]; intros a; simpl.
  - split; [left; reflexivity|]. intros x [<-|[]]. apply Qle_refl.
  - destruct (IH (if Qle_bool y a then a else y)) as [Hin Hmax].
    fold (max_of (if Qle_bool y a then a else y) l) in *.
    assert ((a <= (if Qle_bool y a then a else y))%Q
            /\ (y <= (if Qle_bool y a then a else y))%Q) as [Ha Hy].
    { destruct (Qle_bool y a) eqn:E.
      - split; [apply Qle_refl | apply Qle_bool_iff, E].
      - split; [|apply Qle_refl]. apply Qlt_le_weak, Qnot_le_lt. intros H.
        apply Qle_bool_iff in H. congruence. }
    split.
    + destruct Hin as [Hin|Hin]; [|right; right; exact Hin].
      destruct (Qle_bool y a); [left | right; left]; exact Hin.
    + intros x [<-|[<-|Hx]].
      * eapply Qle_trans; [exact Ha | apply Hmax; left; reflexivity].
      * eapply Qle_trans; [exact Hy | apply Hmax; left; reflexivity].
      * apply Hmax. right. exact Hx.
Qed.

Lemma in_range_filter (l : list Q) (x : Q) :
  In x (filter (fun y => Qle_bool 1 y && Qle_bool y 10000) l) <-> In x l /\ in_range x.
Proof.
  rewrite <- !list_elem_of_In, list_elem_of_filter. unfold in_range.
  rewrite <- !Qle_bool_iff. split.
  - intros [H Hin]. apply Is_true_true, andb_true_iff in H. tauto.
  - intros [Hin [H1 H2]]. split; [|exact Hin]. apply Is_true_true.
    rewrite H1, H2. reflexivity.
Qed.

Lemma pick_amount_spec (l : list Q) :
  (pick_amount l = None <-> l = [])
  /\ forall a, pick_amount l = Some a ->
       In a l
       /\ (forall x, In x l -> in_range x -> in_range a /\ (x <= a)%Q)
       /\ ((forall x, In x l -> ~ in_range x) -> forall x, In x l -> (x <= a)%Q).
Proof.
  unfold pick_amount. destruct l as [|a0 rest].
  - split; [tauto | discriminate].
  - split.
    { split; [|discriminate]. destruct (filter _ (a0 :: rest)); discriminate. }
    intros a.
    destruct (filter (fun y => Qle_bool 1 y && Qle_bool y 10000) (a0 :: rest))
      as [|f frest] eqn:Hf.
    + intros [= <-]. destruct (max_of_spec rest a0) as [Hin Hmax].
      split; [exact Hin|]. split; [|intros _; exact Hmax].
      intros x Hx Hr. exfalso.
      assert (In x (filter (fun y => Qle_bool 1 y && Qle_bool y 10000) (a0 :: rest)))
        as H by (apply in_range_filter; auto).
      rewrite Hf in H. exact H.
    + intros [= <-]. destruct (max_of_spec frest f) as [Hin Hmax].
      rewrite <- Hf in Hin, Hmax. apply in_range_filter in Hin as [Hin Hr].
      split; [exact Hin|]. split.
      * intros x Hx Hxr. split; [exact Hr|]. apply Hmax, in_range_filter. auto.
      * intros Hnone. exfalso. exact (Hnone _ Hin Hr).
Qed.

(** The scan of [most_common] with any counting function: the result is
    the first element of the largest count. *)
Lemma best_scan (c : string -> nat) (rest : list string) :
  forall (pre post : list string) (best : string),
    (forall y, In y pre -> c y < c best) ->
    (forall y, In y post -> c y <= c best) ->
    let res := fold_left (fun b y => if c b <? c y then y else b) rest best in
    exists pre' post',
      (pre ++ best :: post ++ rest)%list = (pre' ++ res :: post')%list
      /\ (forall y, In y pre' -> c y < c res)
      /\ (forall y, In y post' -> c y <= c res).
Proof.
  induction rest as [|y rest IH]; intros pre post best Hpre Hpost; simpl.
  - exists pre, post. rewrite app_nil_r. auto.
  - destruct (c best <? c y) eqn:E.
    + apply Nat.ltb_lt in E.
      destruct (IH (pre ++ best :: post)%list [] y) as (pre' & post' & Heq & H1 & H2).
      * intros z Hz. apply in_app_or in Hz as [Hz|[<-|Hz]].
        -- specialize (Hpre z Hz). lia.
        -- exact E.
        -- specialize (Hpost z Hz). lia.
      * intros z [].
      * exists pre', post'. split; [|auto]. rewrite <- Heq, <- app_assoc. reflexivity.
    + apply Nat.ltb_ge in E.
      destruct (IH pre (post ++ [y])%list best) as (pre' & post' & Heq & H1 & H2).
      * exact Hpre.
      * intros z Hz. apply in_app_or in Hz as [Hz|[<-|[]]]; [apply Hpost, Hz | exact E].
      * exists pre', post'. split; [|auto]. rewrite <- Heq, <- app_assoc. reflexivity.
Qed.

Lemma most_common_spec (l : list string) :
  (most_common l = None <-> l = [])
  /\ forall x, most_common l = Some x ->
       exists pre post,
         l = (pre ++ x :: post)%list
         /\ (forall y, In y pre -> count_of y l < count_of x l)
         /\ (forall y, In y post -> count_of y l <= count_of x l).
Proof.
  unfold most_common. destruct l as [|x0 rest].
  - split; [tauto | discriminate].
  - split; [split; discriminate|]. intros x [= <-].
    destruct (best_scan (fun y => count_of y (x0 :: rest)) rest [] [] x0)
      as (pre & post & Heq & H1 & H2); [intros y [] | intros y [] |].
    exists pre, post. simpl in Heq. rewrite Heq at 1. auto.
Qed.


End Choices.

(** X11. The amount both extractors of [MLEmailParser] keep is one of the
    amounts found.  When some amount lies between 1 and 10000 it is the
    largest such amount, whatever larger amounts were found; when none
    does, it is the largest of all amounts, so a value is still produced.
    No amount is kept only when none was found. *)
Theorem X11_pick_amount_prefers_plausible_range :
  forall l : list Q,
    (ML.pick_amount l = None <-> l = [])
    /\ forall a, ML.pick_amount l = Some a ->
         In a l
         /\ (forall x, In x l -> in_range x -> in_range a /\ (x <= a)%Q)
         /\ ((forall x, In x l -> ~ in_range x) -> forall x, In x l -> (x <= a)%Q).
Proof. exact pick_amount_spec. Qed.

Lemma X11_witness :
  ML.pick_amount [5; 20000; 45]%Q = Some 45%Q
  /\ in_range 45 /\ (5 <= 45)%Q
  /\ ML.pick_amount [999999%Q] = Some 999999%Q.
Proof.
  split; [reflexivity|].
  destruct (proj2 (X11_pick_amount_prefers_plausible_range [5; 20000; 45]%Q) 45%Q eq_refl)
    as (_ & H & _).
  split; [|split; [|reflexivity]].
  - apply (H 5%Q); [left; reflexivity|]. split; discriminate.
  - apply (H 5%Q); [left; reflexivity|]. split; discriminate.
Defined.

(** X12. The merchant the NLP fall-back keeps is the organisation named
    most often; among organisations named equally often it is the one
    named first. *)
Theorem X12_most_common_is_first_of_most_frequent :
  forall l : list string,
    (ML.most_common l = None <-> l = [])
    /\ forall x, ML.most_common l = Some x ->
         exists pre post,
           l = (pre ++ x :: post)%list
           /\ (forall y, In y pre -> ML.count_of y l < ML.count_of x l)
           /\ (forall y, In y post -> ML.count_of y l <= ML.count_of x l).
Proof. exact most_common_spec. Qed.

Lemma X12_witness :
  ML.most_common ["Visa"; "Acme"; "Visa"; "Acme"; "Bank"] = Some "Visa"
  /\ exists pre post,
       ["Visa"; "Acme"; "Visa"; "Acme"; "Bank"] = (pre ++ "Visa" :: post)%list
       /\ (forall y, In y post ->
             ML.count_of y ["Visa"; "Acme"; "Visa"; "Acme"; "Bank"]
             <= ML.count_of "Visa" ["Visa"; "Acme"; "Visa"; "Acme"; "Bank"]).
Proof.
  split; [reflexivity|].
  destruct (proj2 (X12_most_common_is_first_of_most_frequent
                     ["Visa"; "Acme"; "Visa"; "Acme"; "Bank"]) "Visa" eq_refl)
    as (pre & post & Heq & _ & H).
  exists pre, post. split; assumption.
Defined.



(** ** The categoriser and the store of task_scheduler.py *)

Section SchedulerStore.
Import Scheduler.

Lemma ilike_percent (rest s : string) :
  ilike (String "%" rest) s
  = ilike rest s
    || match s with
       | EmptyString => false
       | String _ s' => ilike (String "%" rest) s'
       end.
Proof. destruct s; reflexivity. Qed.

Lemma ilike_refl (p : string) : ilike p p = true.
Proof.
  induction p as [|c p IH]; [reflexivity|].
  destruct (Ascii.eqb c "%") eqn:E.
  - apply Ascii.eqb_eq in E. subst c.
    rewrite ilike_percent, (ilike_percent p p), IH. simpl. apply orb_true_r.
  - simpl. rewrite E, IH, Ascii.eqb_refl, orb_true_r. reflexivity.
Qed.

Lemma next_category_id_fresh (cs : list Category) :
  ~ In (next_category_id cs) (map c_id cs).
Proof.
  intros H. apply max_id_bound in H. unfold next_category_id in H. lia.
Qed.

Lemma scheduler_next_id_fresh (es : list Expense) : ~ In (next_id es) (map e_id es).
Proof.
  intros H. apply max_id_bound in H. unfold next_id in H. lia.
Qed.

(** What [categorize_expense] does to the categories and to the expense. *)
Lemma categorize_expense_effect (M : ML.models) (cs cs' : list Category)
    (e e' : Expense) (uid : Z) :
  categorize_expense M cs e uid = Ok (e', cs') ->
  exists name,
    predict_category M e = Ok name
    /\ ((truthy name = false /\ cs' = cs /\ e' = e)
        \/ (truthy name = true
            /\ exists c,
                 e' = set_category e (c_id c) /\ c_user_id c = uid
                 /\ ilike name (c_name c) = true
                 /\ ((cs' = cs /\ In c cs
                      /\ find (fun c0 => ilike name (c_name c0)
                                         && (c_user_id c0 =? uid)%Z) cs = Some c)
                     \/ (cs' = (cs ++ [c])%list /\ c_name c = name
                         /\ c_id c = next_category_id cs
                         /\ find (fun c0 => ilike name (c_name c0)
                                            && (c_user_id c0 =? uid)%Z) cs = None)))).
Proof.
  unfold categorize_expense.
  destruct (predict_category M e) as [name|]; simpl; [|discriminate].
  intros H. exists name. split; [reflexivity|].
  destruct (truthy name) eqn:Ht.
  - right. split; [reflexivity|].
    destruct (find _ cs) as [c|] eqn:Hf.
    + injection H as <- <-. pose proof Hf as Hfound.
      apply find_some in Hf as [Hin Hc].
      apply andb_true_iff in Hc as [Hl Hu].
      apply Z.eqb_eq in Hu.
      exists c. split; [reflexivity|]. split; [exact Hu|]. split; [exact Hl|].
      left. auto.
    + injection H as <- <-.
      exists {| c_id := next_category_id cs; c_name := name; c_user_id := uid |}.
      simpl. split; [reflexivity|]. split; [reflexivity|]. split; [apply ilike_refl|].
      right. split; [reflexivity|]. split; [reflexivity|]. split; reflexivity.
  - left. injection H as <- <-. auto.
Qed.
End SchedulerStore.

(** X14. [categorize_expense] of the scheduler keeps every category and
    adds at most one, for the user of the call and under a new identifier;
    the category it gives the expense is a category of that user in the
    resulting list whose name matches the predicted name. *)
Theorem X14_category_is_found_or_created_for_the_user :
  forall (M : ML.models) (cs cs' : list Scheduler.Category)
         (e e' : Scheduler.Expense) (uid : Z),
    Scheduler.categorize_expense M cs e uid = Ok (e', cs') ->
    (cs' = cs
     \/ exists c, cs' = (cs ++ [c])%list /\ Scheduler.c_user_id c = uid
                  /\ ~ In (Scheduler.c_id c) (map Scheduler.c_id cs))
    /\ (e' = e
        \/ exists c name,
             In c cs' /\ Scheduler.c_user_id c = uid
             /\ Scheduler.predict_category M e = Ok name
             /\ Scheduler.ilike name (Scheduler.c_name c) = true
             /\ e' = Scheduler.set_category e (Scheduler.c_id c)).
Proof.
  intros M cs cs' e e' uid H.
  destruct (categorize_expense_effect _ _ _ _ _ _ H)
    as (name & Hp & [(_ & -> & ->)|(_ & c & -> & Hu & Hl & Hc)]).
  - split; left; reflexivity.
  - destruct Hc as [(-> & Hin & _)|(-> & Hn & Hid & _)].
    + split; [left; reflexivity|]. right. exists c, name. repeat split; assumption.
    + split.
      * right. exists c. repeat split; [exact Hu|]. rewrite Hid.
        apply next_category_id_fresh.
      * right. exists c, name. repeat split; try assumption.
        apply in_or_app. right. left. reflexivity.
Qed.

Lemma X14_witness :
  exists e' c,
    Scheduler.categorize_expense spacy_only []
      (Scheduler.MkExpense 1 (MkDate 2024 12 5) (Some 45%Q) (Some "Acme") "" None 7 None) 7
    = Ok (e', [c])
    /\ Scheduler.c_user_id c = 7%Z /\ Scheduler.e_category_id e' = Some (Scheduler.c_id c).
Proof.
  destruct (X14_category_is_found_or_created_for_the_user spacy_only []
              [Scheduler.MkCategory 1 "Shopping" 7]
              (Scheduler.MkExpense 1 (MkDate 2024 12 5) (Some 45%Q) (Some "Acme") "" None
                 7 None)
              (Scheduler.MkExpense 1 (MkDate 2024 12 5) (Some 45%Q) (Some "Acme") ""
                 (Some 1%Z) 7 None) 7 eq_refl) as [_ H].
  eexists. eexists. split; [vm_compute; reflexivity|]. split; reflexivity.
Defined.

(** X15. Creating a category when none matches is idempotent: once
    [categorize_expense] has run for an expense, another expense of the
    same user with the same predicted name gets the same category and no
    category is added. *)
Theorem X15_category_is_created_once :
  forall (M : ML.models) (cs cs1 : list Scheduler.Category)
         (e1 e1' e2 : Scheduler.Expense) (uid : Z),
    Scheduler.categorize_expense M cs e1 uid = Ok (e1', cs1) ->
    Scheduler.predict_category M e2 = Scheduler.predict_category M e1 ->
    exists e2',
      Scheduler.categorize_expense M cs1 e2 uid = Ok (e2', cs1)
      /\ forall name,
           Scheduler.predict_category M e1 = Ok name -> truthy name = true ->
           Scheduler.e_category_id e2' = Scheduler.e_category_id e1'.
Proof.
  intros M cs cs1 e1 e1' e2 uid H Hsame.
  destruct (categorize_expense_effect _ _ _ _ _ _ H)
    as (name & Hp & [(Ht & -> & ->)|(Ht & c & -> & Hu & Hl & Hc)]).
  - exists e2. unfold Scheduler.categorize_expense. rewrite Hsame, Hp. simpl. rewrite Ht.
    split; [reflexivity|]. intros name' [= <-] Ht'. congruence.
  - unfold Scheduler.categorize_expense in *. rewrite Hsame, Hp in *. simpl in *.
    rewrite Ht in *.
    destruct Hc as [(-> & Hin & Hf)|(-> & Hn & Hid & Hnone)].
    + rewrite Hf. eexists. split; [reflexivity|]. intros _ _ _. reflexivity.
    + rewrite (find_app_new _ cs c Hnone).
      * eexists. split; [reflexivity|]. intros _ _ _. reflexivity.
      * rewrite Hl, Hu, Z.eqb_refl. reflexivity.
Qed.

Lemma X15_witness :
  let e1 := Scheduler.MkExpense 1 (MkDate 2024 12 5) (Some 45%Q) (Some "Acme") "" None 7 None in
  let e2 := Scheduler.MkExpense 2 (MkDate 2024 12 6) (Some 12%Q) (Some "Kiosk") "" None 7 None in
  exists e2',
    Scheduler.categorize_expense spacy_only [Scheduler.MkCategory 1 "Shopping" 7] e2 7
    = Ok (e2', [Scheduler.MkCategory 1 "Shopping" 7])
    /\ Scheduler.e_category_id e2' = Some 1%Z.
Proof.
  intros e1 e2.
  destruct (X15_category_is_created_once spacy_only [] [Scheduler.MkCategory 1 "Shopping" 7]
              e1 (Scheduler.set_category e1 1) e2 7 eq_refl eq_refl) as (e2' & H & Hc).
  exists e2'. split; [exact H|]. exact (Hc "Shopping" eq_refl eq_refl).
Defined.

(** ** [process_email] and [fetch_emails] on the store *)

Section SchedulerRuns.
Import Scheduler.
Variable W : world.
Variable M : ML.models.

Lemma stored_email_ids_app (es1 es2 : list Expense) :
  stored_email_ids (es1 ++ es2) = (stored_email_ids es1 ++ stored_email_ids es2)%list.
Proof. unfold stored_email_ids. apply flat_map_app. Qed.

Lemma stored_iff_found (es : list Expense) (mid : string) :
  In mid (stored_email_ids es) <-> find (has_email_id mid) es <> None.
Proof.
  induction es as [|e es IH]; simpl; [tauto|].
  rewrite in_app_iff, IH. unfold has_email_id at 2.
  destruct (e_email_id e) as [i|]; simpl.
  - destruct (String.eqb_spec i mid) as [->|Hne].
    + split; [discriminate | auto].
    + split; [intros [[H|[]]|H]; [contradiction | exact H] | auto].
  - split; [intros [[]|H]; exact H | auto].
Qed.

(** The expense a run creates: its key is new, it carries the message
    identifier, and the categories come from [categorize_expense]. *)
Lemma fetch_and_extract_effect (st : db) (user : User) (service : string -> res Message)
    (mid : string) (e : Expense) (cs : list Category) :
  fetch_and_extract W M st user service mid = Ok (Some (e, cs)) ->
  e_id e = next_id (expenses st) /\ e_email_id e = Some mid
  /\ exists e0, categorize_expense M (categories st) e0 (u_id user) = Ok (e, cs).
Proof.
  unfold fetch_and_extract.
  destruct (service mid) as [message|]; simpl; [|discriminate].
  destruct (extract_email_body W (payload message)) as [text|]; simpl; [|discriminate].
  destruct (ML.extract_expense_details W M text _) as [[[a|] [m|] d desc]|];
    try discriminate.
  match goal with |- context [categorize_expense M (categories st) ?x (u_id user)] =>
    destruct (categorize_expense M (categories st) x (u_id user)) as [[e' cs']|] eqn:Hc
  end; simpl; [|discriminate].
  intros [= <- <-].
  destruct (categorize_expense_effect _ _ _ _ _ _ Hc)
    as (name & _ & [(_ & _ & ->)|(_ & c & -> & _)]);
    (split; [reflexivity|]; split; [reflexivity|]; eexists; exact Hc).
Qed.

(** Whether a message can be extracted does not depend on the store. *)
Lemma fetch_and_extract_any_store (st1 st2 : db) (user : User)
    (service : string -> res Message) (mid : string) (r1 : Expense * list Category) :
  fetch_and_extract W M st1 user service mid = Ok (Some r1) ->
  exists r2, fetch_and_extract W M st2 user service mid = Ok (Some r2).
Proof.
  unfold fetch_and_extract.
  destruct (service mid) as [message|]; simpl; [|discriminate].
  destruct (extract_email_body W (payload message)) as [text|]; simpl; [|discriminate].
  destruct (ML.extract_expense_details W M text _) as [[[a|] [m|] d desc]|];
    try discriminate.
  unfold categorize_expense, predict_category, combined_text. simpl.
  match goal with |- context [match ML.classifier M with _ => _ end] =>
    destruct (match ML.classifier M with
              | Some predict => predict _
              | None => ML.zero_shot M _ common_categories
              end) as [name|]; simpl; [|discriminate]
  end.
  intros _. destruct (truthy name); [|eexists; reflexivity].
  destruct (find _ (categories st2)); eexists; reflexivity.
Qed.

(** One run of [process_email]: the stored message identifiers and keys. *)
Lemma process_email_step (st : db) (user : User) (service : string -> res Message)
    (mid : string) :
  let st' := snd (process_email W M st user service mid) in
  (st' = st
   \/ exists e cs, st' = {| categories := cs; expenses := (expenses st ++ [e])%list |}
                   /\ e_id e = next_id (expenses st) /\ e_email_id e = Some mid
                   /\ find (has_email_id mid) (expenses st) = None
                   /\ exists e0, categorize_expense M (categories st) e0 (u_id user)
                                 = Ok (e, cs))
  /\ (extractable W M user service mid -> In mid (stored_email_ids (expenses st')))
  /\ (~ extractable W M user service mid -> st' = st).
Proof.
  unfold process_email.
  destruct (find (has_email_id mid) (expenses st)) as [old|] eqn:Hold; simpl.
  { split; [left; reflexivity|]. split; [|reflexivity].
    intros _. apply stored_iff_found. rewrite Hold. discriminate. }
  destruct (fetch_and_extract W M st user service mid) as [[[e cs]|]|x] eqn:Hf; simpl.
  - destruct (fetch_and_extract_effect _ _ _ _ _ _ Hf) as (Hid & Hm & Hc).
    split; [right; exists e, cs; repeat split; assumption|]. split.
    + intros _. rewrite stored_email_ids_app. apply in_or_app. right. simpl.
      rewrite Hm. left. reflexivity.
    + intros Hn. exfalso. apply Hn. exists st, (e, cs). exact Hf.
  - split; [left; reflexivity|]. split; [|reflexivity].
    intros (st0 & r & Hr).
    destruct (fetch_and_extract_any_store st0 st _ _ _ _ Hr) as (r2 & Hr2). congruence.
  - split; [left; reflexivity|]. split; [|reflexivity].
    intros (st0 & r & Hr).
    destruct (fetch_and_extract_any_store st0 st _ _ _ _ Hr) as (r2 & Hr2). congruence.
Qed.

Lemma process_email_keeps_stored (st : db) (user : User)
    (service : string -> res Message) (mid mid' : string) :
  In mid' (stored_email_ids (expenses st)) ->
  In mid' (stored_email_ids (expenses (snd (process_email W M st user service mid)))).
Proof.
  intros H. destruct (process_email_step st user service mid) as ([->|(e & cs & -> & _)] & _).
  - exact H.
  - simpl. rewrite stored_email_ids_app. apply in_or_app. left. exact H.
Qed.

Lemma process_all_keeps_stored (service : Service) (user : User) (ids : list string) :
  forall st mid',
    In mid' (stored_email_ids (expenses st)) ->
    In mid' (stored_email_ids (expenses (process_all W M st user service ids))).
Proof.
  unfold process_all. induction ids as [|id ids IH]; intros st mid' H; simpl; [exact H|].
  apply IH, process_email_keeps_stored, H.
Qed.

Lemma process_all_stores (service : Service) (user : User) (ids : list string)
    (mid : string) :
  In mid ids ->
  extractable W M user (get_message service) mid ->
  forall st, In mid (stored_email_ids (expenses (process_all W M st user service ids))).
Proof.
  intros Hin Hex. induction ids as [|id ids IH]; intros st; [contradiction|].
  destruct Hin as [->|Hin].
  - apply (process_all_keeps_stored service user ids).
    apply (proj1 (proj2 (process_email_step st user (get_message service) mid))), Hex.
  - apply IH, Hin.
Qed.

(** Once every listed message is stored or cannot be extracted, the loop
    changes nothing. *)
Lemma process_all_settled (service : Service) (user : User) (ids : list string) (st : db) :
  Forall (fun id => In id (stored_email_ids (expenses st))
                    \/ ~ extractable W M user (get_message service) id) ids ->
  process_all W M st user service ids = st.
Proof.
  unfold process_all. intros H. induction H as [|id ids Hid _ IH]; simpl; [reflexivity|].
  assert (snd (process_email W M st user (get_message service) id) = st) as ->; [|exact IH].
  destruct Hid as [Hs|Hn].
  - unfold process_email. apply stored_iff_found in Hs.
    destruct (find (has_email_id id) (expenses st)); [reflexivity | contradiction].
  - apply (proj2 (proj2 (process_email_step st user (get_message service) id))), Hn.
Qed.
End SchedulerRuns.

Section SchedulerInvariants.
Import Scheduler.
Variable W : world.
Variable M : ML.models.

(** The identifiers of a store are distinct: primary keys of expenses and
    of categories, and message identifiers. *)
Lemma process_email_unique (st : db) (user : User) (service : string -> res Message)
    (mid : string) :
  let st' := snd (process_email W M st user service mid) in
  (NoDup (map e_id (expenses st)) -> NoDup (map e_id (expenses st')))
  /\ (NoDup (stored_email_ids (expenses st)) -> NoDup (stored_email_ids (expenses st')))
  /\ (NoDup (map c_id (categories st)) -> NoDup (map c_id (categories st'))).
Proof.
  destruct (process_email_step W M st user service mid)
    as ([->|(e & cs & -> & Hid & Hm & Hnew & e0 & Hc)] & _); [auto|].
  simpl. split; [|split]; intros Hnd.
  - rewrite map_app. apply NoDup_app. split; [exact Hnd|]. split.
    + intros x Hx Hx'. apply list_elem_of_In in Hx, Hx'. destruct Hx' as [<-|[]].
      rewrite Hid in Hx. exact (scheduler_next_id_fresh _ Hx).
    + apply NoDup_singleton.
  - rewrite stored_email_ids_app. apply NoDup_app. split; [exact Hnd|]. split.
    + intros x Hx Hx'. apply list_elem_of_In in Hx, Hx'. simpl in Hx'. rewrite Hm in Hx'.
      destruct Hx' as [<-|[]]. apply stored_iff_found in Hx. contradiction.
    + simpl. rewrite Hm. apply NoDup_singleton.
  - destruct (categorize_expense_effect _ _ _ _ _ _ Hc)
      as (name & _ & [(_ & -> & _)|(_ & c & _ & _ & _ & [(-> & _)|(-> & _ & Hcid & _)])]);
      try exact Hnd.
    rewrite map_app. apply NoDup_app. split; [exact Hnd|]. split.
    + intros x Hx Hx'. apply list_elem_of_In in Hx, Hx'. destruct Hx' as [<-|[]].
      rewrite Hcid in Hx. exact (next_category_id_fresh _ Hx).
    + apply NoDup_singleton.
Qed.

Lemma process_all_unique (service : Service) (user : User) (ids : list string) :
  forall st,
    let st' := process_all W M st user service ids in
    (NoDup (map e_id (expenses st)) -> NoDup (map e_id (expenses st')))
    /\ (NoDup (stored_email_ids (expenses st)) -> NoDup (stored_email_ids (expenses st')))
    /\ (NoDup (map c_id (categories st)) -> NoDup (map c_id (categories st'))).
Proof.
  unfold process_all. induction ids as [|id ids IH]; intros st; simpl; [auto|].
  destruct (process_email_unique st user (get_message service) id) as (H1 & H2 & H3).
  destruct (IH (snd (process_email W M st user (get_message service) id)))
    as (K1 & K2 & K3).
  auto.
Qed.

(** Whether a message can be extracted is decided by a run on any store. *)
Lemma extractable_dec (user : User) (service : string -> res Message) (mid : string) :
  extractable W M user service mid \/ ~ extractable W M user service mid.
Proof.
  destruct (fetch_and_extract W M {| categories := []; expenses := [] |} user service mid)
    as [[r|]|x] eqn:Hf.
  - left. eexists. eexists. exact Hf.
  - right. intros (st0 & r & Hr).
    destruct (fetch_and_extract_any_store W M st0 {| categories := []; expenses := [] |}
                _ _ _ _ Hr) as (r2 & Hr2).
    rewrite Hf in Hr2. discriminate.
  - right. intros (st0 & r & Hr).
    destruct (fetch_and_extract_any_store W M st0 {| categories := []; expenses := [] |}
                _ _ _ _ Hr) as (r2 & Hr2).
    rewrite Hf in Hr2. discriminate.
Qed.

Lemma process_all_twice (service : Service) (user : User) (ids : list string) (st : db) :
  process_all W M (process_all W M st user service ids) user service ids
  = process_all W M st user service ids.
Proof.
  apply process_all_settled. apply Forall_forall. intros id Hin.
  apply list_elem_of_In in Hin.
  destruct (extractable_dec user (get_message service) id) as [Hex|Hn]; [left | right; exact Hn].
  apply process_all_stores; assumption.
Qed.
End SchedulerInvariants.

(** X16. [fetch_emails] keeps the identifiers of the store distinct, also
    when the listing names a message more than once: after the batch the
    primary keys of the expenses, their message identifiers and the primary
    keys of the categories are distinct if they were before, so a message
    never gets two expenses. *)
Theorem X16_batch_keeps_identifiers_unique :
  forall (W : world) (M : ML.models) (users : list Scheduler.User)
         (get_gmail_service : Scheduler.User -> option Scheduler.Service)
         (st : Scheduler.db) (uid : Z),
    let st' := Scheduler.fetch_emails W M users get_gmail_service st uid in
    (NoDup (map Scheduler.e_id (Scheduler.expenses st)) ->
     NoDup (map Scheduler.e_id (Scheduler.expenses st')))
    /\ (NoDup (stored_email_ids (Scheduler.expenses st)) ->
        NoDup (stored_email_ids (Scheduler.expenses st')))
    /\ (NoDup (map Scheduler.c_id (Scheduler.categories st)) ->
        NoDup (map Scheduler.c_id (Scheduler.categories st'))).
Proof.
  intros W M users gs st uid. unfold Scheduler.fetch_emails.
  destruct (find _ users) as [user|]; [|simpl; auto].
  destruct (gs user) as [service|]; [|simpl; auto].
  destruct (Scheduler.list_messages service) as [ids|]; [|simpl; auto].
  apply process_all_unique.
Qed.

Lemma X16_witness :
  let st' := Scheduler.fetch_emails receipts spacy_only [Scheduler.MkUser 1]
               (fun _ => Some sample_service) empty_store 1 in
  stored_email_ids (Scheduler.expenses st') = ["m-2"; "m-1"]
  /\ NoDup (stored_email_ids (Scheduler.expenses st')).
Proof.
  intros st'. split; [vm_compute; reflexivity|].
  apply (X16_batch_keeps_identifiers_unique receipts spacy_only [Scheduler.MkUser 1]
           (fun _ => Some sample_service) empty_store 1).
  constructor.
Defined.



(** X18. [fetch_emails] is idempotent: with the same services and models, a
    second batch for the same user leaves the database of the first batch
    as it is. *)
Theorem X18_batch_is_idempotent :
  forall (W : world) (M : ML.models) (users : list Scheduler.User)
         (get_gmail_service : Scheduler.User -> option Scheduler.Service)
         (st : Scheduler.db) (uid : Z),
    Scheduler.fetch_emails W M users get_gmail_service
      (Scheduler.fetch_emails W M users get_gmail_service st uid) uid
    = Scheduler.fetch_emails W M users get_gmail_service st uid.
Proof.
  intros W M users gs st uid. unfold Scheduler.fetch_emails.
  destruct (find _ users) as [user|]; [|reflexivity].
  destruct (gs user) as [service|]; [|reflexivity].
  destruct (Scheduler.list_messages service) as [ids|]; [|reflexivity].
  apply process_all_twice.
Qed.

(** ** What the matcher captures *)

Section Captures.
Import Re.
Context {A : Type}.
Variable P : string -> Prop.

Lemma append_cons (x : ascii) (a b : string) :
  (String x a ++ b = String x (a ++ b))%string.
Proof. reflexivity. Qed.

Lemma append_assoc (a b c : string) : ((a ++ b) ++ c = a ++ (b ++ c))%string.
Proof.
  induction a as [|x a IH]; [reflexivity|]. rewrite !append_cons, IH. reflexivity.
Qed.

Lemma append_nil_r (a : string) : (a ++ "" = a)%string.
Proof.
  induction a as [|x a IH]; [reflexivity|]. rewrite append_cons, IH. reflexivity.
Qed.

Lemma append_length (a b : string) :
  String.length (a ++ b) = String.length a + String.length b.
Proof.
  induction a as [|x a IH]; [reflexivity|]. rewrite append_cons. simpl. rewrite IH.
  reflexivity.
Qed.

Lemma consumed_append (w s1 : string) : consumed (w ++ s1) s1 = w.
Proof.
  unfold consumed. rewrite append_length.
  replace (String.length w + String.length s1 - String.length s1) with (String.length w)
    by lia.
  induction w as [|x w IH]; [destruct s1; reflexivity|].
  rewrite append_cons. simpl. rewrite IH. reflexivity.
Qed.

(** A success of the loop: the iterations match the body one after the
    other, their number is within the bounds, and the group is good. *)
Lemma rep_loop_sound
    (body : string -> option string -> (string -> option string -> option A) -> option A)
    (L : string -> Prop) (greedy : bool) (lo : nat) (hi : option nat)
    (k : string -> option string -> option A) :
  (forall s g k' a, body s g k' = Some a ->
     exists w s1 g1, s = (w ++ s1)%string /\ L w /\ k' s1 g1 = Some a
                     /\ (good P g -> good P g1)) ->
  forall fuel n s g a,
    rep_loop body greedy lo hi k fuel n s g = Some a ->
    exists ws s1 g1,
      s = (flatten ws ++ s1)%string /\ Forall L ws /\ lo <= n + List.length ws
      /\ match hi with
         | Some h => n <= h -> n + List.length ws <= h
         | None => True
         end
      /\ k s1 g1 = Some a /\ (good P g -> good P g1).
Proof.
  intros Hbody. induction fuel as [|fuel IH]; intros n s g a H; simpl in H.
  - destruct (lo <=? n) eqn:Hlo; [|discriminate]. apply Nat.leb_le in Hlo.
    exists [], s, g. simpl. repeat split; auto; try lia. destruct hi; [lia | exact I].
  - assert (forall x, (if lo <=? n then k s g else None) = Some x ->
              exists ws s1 g1,
                s = (flatten ws ++ s1)%string /\ Forall L ws /\ lo <= n + List.length ws
                /\ match hi with
                   | Some h => n <= h -> n + List.length ws <= h
                   | None => True
                   end
                /\ k s1 g1 = Some x /\ (good P g -> good P g1)) as Hstop.
    { intros x Hx. destruct (lo <=? n) eqn:Hlo; [|discriminate]. apply Nat.leb_le in Hlo.
      exists [], s, g. simpl. repeat split; auto; try lia. destruct hi; [lia | exact I]. }
    assert (forall x,
              (if below n hi
               then body s g (fun s1 g1 =>
                      if String.length s1 <? String.length s
                      then rep_loop body greedy lo hi k fuel (S n) s1 g1 else None)
               else None) = Some x ->
              exists ws s1 g1,
                s = (flatten ws ++ s1)%string /\ Forall L ws /\ lo <= n + List.length ws
                /\ match hi with
                   | Some h => n <= h -> n + List.length ws <= h
                   | None => True
                   end
                /\ k s1 g1 = Some x /\ (good P g -> good P g1)) as Hmore.
    { intros x Hx. destruct (below n hi) eqn:Hb; [|discriminate].
      destruct (Hbody _ _ _ _ Hx) as (w & s1 & g1 & -> & Hw & Hk & Hg).
      destruct (String.length s1 <? String.length (w ++ s1)); [|discriminate].
      destruct (IH _ _ _ _ Hk) as (ws & s2 & g2 & -> & Hws & Hlo & Hhi & Hk2 & Hg2).
      exists (w :: ws), s2, g2.
      split; [symmetry; apply append_assoc|]. split; [constructor; assumption|].
      simpl. split; [lia|]. split; [|auto].
      unfold below in Hb. destruct hi as [h|]; [|exact I].
      apply Nat.ltb_lt in Hb. intros _. specialize (Hhi ltac:(lia)). lia. }
    destruct greedy.
    + destruct (if below n hi then _ else None) as [x|] eqn:E.
      * injection H as ->. apply Hmore. reflexivity.
      * apply Hstop, H.
    + destruct (if lo <=? n then k s g else None) as [x|] eqn:E.
      * injection H as ->. apply Hstop. reflexivity.
      * apply Hmore, H.
Qed.

(** Soundness of the matcher: what [run] consumes is a word of the
    pattern, and group 1 stays good when every capture of the pattern is. *)
Lemma run_sound (r : regex) :
  captures P r ->
  forall s g (k : string -> option string -> option A) a,
    run r s g k = Some a ->
    exists w s1 g1, s = (w ++ s1)%string /\ lang r w /\ k s1 g1 = Some a
                    /\ (good P g -> good P g1).
Proof.
  induction r as [|p|r1 IH1 r2 IH2|r1 IH1 r2 IH2|greedy lo hi r1 IH1|r1 IH1|];
    intros Hc s g k a H; simpl in H.
  - exists EmptyString, s, g. simpl. auto.
  - destruct s as [|c s']; [discriminate|]. destruct (p c) eqn:Hp; [|discriminate].
    exists (String c EmptyString), s', g. simpl. repeat split; eauto.
  - destruct Hc as [Hc1 Hc2].
    destruct (IH1 Hc1 _ _ _ _ H) as (w1 & s1 & g1 & -> & Hw1 & H1 & G1).
    destruct (IH2 Hc2 _ _ _ _ H1) as (w2 & s2 & g2 & -> & Hw2 & H2 & G2).
    exists (w1 ++ w2)%string, s2, g2. rewrite append_assoc. simpl.
    repeat split; eauto.
  - destruct Hc as [Hc1 Hc2]. destruct (run r1 s g k) as [x|] eqn:E.
    + injection H as ->.
      destruct (IH1 Hc1 _ _ _ _ E) as (w & s1 & g1 & -> & Hw & H1 & G1).
      exists w, s1, g1. simpl. auto.
    + destruct (IH2 Hc2 _ _ _ _ H) as (w & s1 & g1 & -> & Hw & H1 & G1).
      exists w, s1, g1. simpl. auto.
  - simpl in Hc.
    destruct (rep_loop_sound (run r1) (lang r1) greedy lo hi k (IH1 Hc) _ _ _ _ _ H)
      as (ws & s1 & g1 & -> & Hws & Hlo & Hhi & Hk & Hg).
    exists (flatten ws), s1, g1. repeat split; auto.
    exists ws. repeat split; auto. destruct hi; [apply Hhi; lia | exact I].
  - destruct Hc as [HP Hc].
    destruct (IH1 Hc _ _ _ _ H) as (w & s1 & g1 & -> & Hw & H1 & _).
    exists w, s1, (Some (consumed (w ++ s1) s1)). repeat split; auto.
    intros _. rewrite consumed_append. simpl. apply HP, Hw.
  - destruct (at_end s); [|discriminate]. exists EmptyString, s, g. simpl. auto.
Qed.
End Captures.

(** Group 1 of a match satisfies what every capture of the pattern does. *)
Lemma search_captures (P : string -> Prop) (r : Re.regex) (s : string) (m : Re.rmatch) :
  Re.sets_group r = true ->
  Re.captures P r ->
  Re.search r s = Some m ->
  P (Re.group1 m).
Proof.
  intros Hs Hc Hm. pose proof (search_group r s m Hs Hm) as Hg.
  revert Hm Hg. unfold Re.search. generalize 0 as pos.
  assert (forall pos s0, Re.match_at r pos s0 = Some m -> Re.m_group m = Some (Re.group1 m) ->
                         P (Re.group1 m)) as Hat.
  { intros pos s0 E Hg. unfold Re.match_at in E.
    destruct (run_sound P r Hc _ _ _ _ E) as (w & s1 & g1 & _ & _ & [= <-] & G).
    destruct g1 as [x|]; [exact (G I) | discriminate Hg]. }
  induction s as [|c s IH]; intros pos; simpl.
  - destruct (Re.match_at r pos "") as [m0|] eqn:E; [|discriminate].
    intros [= ->]. eauto.
  - destruct (Re.match_at r pos (String c s)) as [m0|] eqn:E.
    + intros [= ->]. eauto.
    + apply IH.
Qed.

(** ** The amounts of the heuristic extractor *)

Section Numerals.

Lemma digit_not_comma (c : ascii) : Py.is_digit c = true -> Ascii.eqb c "," = false.
Proof.
  intros H. destruct (Ascii.eqb_spec c ",") as [->|]; [|reflexivity].
  vm_compute in H. discriminate.
Qed.

Lemma digit_not_dot (c : ascii) : Py.is_digit c = true -> Ascii.eqb c "." = false.
Proof.
  intros H. destruct (Ascii.eqb_spec c ".") as [->|]; [|reflexivity].
  vm_compute in H. discriminate.
Qed.

Lemma all_chars_app (p : ascii -> bool) (a b : string) :
  all_chars p (a ++ b) = all_chars p a && all_chars p b.
Proof.
  induction a as [|x a IH]; [reflexivity|]. rewrite append_cons. simpl.
  rewrite IH, andb_assoc. reflexivity.
Qed.

Lemma all_chars_weaken (p q : ascii -> bool) (w : string) :
  (forall c, p c = true -> q c = true) -> all_chars p w = true -> all_chars q w = true.
Proof.
  intros H. induction w as [|c w IH]; simpl; [reflexivity|].
  rewrite !andb_true_iff. intros [Hc Hw]. auto.
Qed.

Lemma remove_char_app (c : ascii) (a b : string) :
  Py.remove_char c (a ++ b) = (Py.remove_char c a ++ Py.remove_char c b)%string.
Proof.
  induction a as [|x a IH]; [reflexivity|]. rewrite append_cons. simpl.
  destruct (Ascii.eqb x c); [exact IH|]. rewrite append_cons, IH. reflexivity.
Qed.

Lemma remove_comma_digits (w : string) :
  all_chars Py.is_digit w = true -> Py.remove_char "," w = w.
Proof.
  induction w as [|c w IH]; simpl; [reflexivity|].
  rewrite andb_true_iff. intros [Hc Hw]. rewrite (digit_not_comma c Hc), (IH Hw).
  reflexivity.
Qed.

Lemma remove_comma_all_digits (w : string) :
  all_chars digit_or_comma w = true -> all_chars Py.is_digit (Py.remove_char "," w) = true.
Proof.
  induction w as [|c w IH]; simpl; [reflexivity|].
  rewrite andb_true_iff. unfold digit_or_comma at 1. intros [Hc Hw].
  destruct (Ascii.eqb c ",") eqn:E; [exact (IH Hw)|].
  rewrite orb_false_r in Hc. simpl. rewrite Hc. exact (IH Hw).
Qed.

Lemma split_on_aux_digits (w cur : string) :
  all_chars Py.is_digit w = true -> Py.split_on_aux "." w cur = [(cur ++ w)%string].
Proof.
  revert cur. induction w as [|c w IH]; intros cur; simpl.
  - intros _. rewrite append_nil_r. reflexivity.
  - rewrite andb_true_iff. intros [Hc Hw]. rewrite (digit_not_dot c Hc), (IH _ Hw).
    unfold Py.snoc. rewrite append_assoc, append_cons. reflexivity.
Qed.

Lemma split_on_aux_dot (i f cur : string) :
  all_chars Py.is_digit i = true ->
  Py.split_on_aux "." (i ++ String "." f) cur
  = (cur ++ i)%string :: Py.split_on_aux "." f EmptyString.
Proof.
  revert cur. induction i as [|c i IH]; intros cur.
  - intros _. simpl. rewrite append_nil_r. reflexivity.
  - simpl. rewrite andb_true_iff. intros [Hc Hi]. try rewrite append_cons. simpl.
    rewrite (digit_not_dot c Hc), (IH _ Hi).
    unfold Py.snoc. rewrite append_assoc, append_cons. reflexivity.
Qed.

Lemma digits_value_some (w : string) :
  all_chars Py.is_digit w = true ->
  forall acc, (0 <= acc)%Z -> exists n, Py.digits_value w acc = Some n /\ (0 <= n)%Z.
Proof.
  induction w as [|c w IH]; simpl; intros H acc Hacc.
  - exists acc. auto.
  - apply andb_true_iff in H as [Hc Hw]. rewrite Hc. apply (IH Hw). lia.
Qed.

Lemma Qred_nonneg (n : Z) (p : positive) : (0 <= n)%Z -> (0 <= Qred (n # p))%Q.
Proof.
  intros H. rewrite Qred_correct. unfold Qle. simpl. lia.
Qed.

(** Digits and commas after a first digit, then nothing or a dot and
    digits: [float] reads such a text without its commas. *)
Lemma amount_text_shape (c : ascii) (b f : string) :
  Py.is_digit c = true ->
  all_chars digit_or_comma b = true ->
  f = EmptyString
  \/ (exists f', f = String "." f' /\ all_chars Py.is_digit f' = true) ->
  amount_text (String c b ++ f).
Proof.
  intros Hc Hb Hf. unfold amount_text.
  rewrite remove_char_app. simpl. rewrite (digit_not_comma c Hc).
  pose proof (remove_comma_all_digits b Hb) as Hd.
  set (ds := Py.remove_char "," b) in *.
  assert (all_chars Py.is_digit (String c ds) = true) as Hcd
    by (simpl; rewrite Hc, Hd; reflexivity).
  destruct Hf as [->|(f' & -> & Hf')].
  - simpl. rewrite append_nil_r. unfold Py.float_of, Py.split_on.
    rewrite (split_on_aux_digits _ _ Hcd). simpl.
    destruct (digits_value_some (String c ds) Hcd 0%Z ltac:(lia)) as (n & Hn & Hpos).
    simpl in Hn. rewrite Hn. simpl. exists (inject_Z n). split; [reflexivity|].
    unfold Qle. simpl. lia.
  - simpl. rewrite (remove_comma_digits f' Hf').
    unfold Py.float_of, Py.split_on.
    rewrite (split_on_aux_dot (String c ds) f' EmptyString Hcd).
    rewrite (split_on_aux_digits f' EmptyString Hf').
    change (("" ++ String c ds)%string) with (String c ds).
    change (("" ++ f')%string) with f'.
    rewrite append_cons.
    assert (all_chars Py.is_digit (String c (ds ++ f')) = true) as Hall.
    { simpl. rewrite Hc, all_chars_app, Hd, Hf'. reflexivity. }
    destruct (digits_value_some _ Hall 0%Z ltac:(lia)) as (n & Hn & Hpos).
    rewrite Hn. eexists. split; [reflexivity|]. apply Qred_nonneg, Hpos.
Qed.
End Numerals.

Section AmountLanguage.
Import Re.

Lemma lang_rep_all (p : ascii -> bool) (greedy : bool) (lo : nat) (hi : option nat)
    (r : regex) (w : string) :
  (forall x, lang r x -> all_chars p x = true) ->
  lang (Rep greedy lo hi r) w -> all_chars p w = true.
Proof.
  intros Hr (ws & -> & Hws & _). induction Hws as [|x ws Hx _ IH]; [reflexivity|].
  simpl. rewrite all_chars_app, (Hr x Hx), IH. reflexivity.
Qed.

Lemma lang_class (p : ascii -> bool) (x : string) :
  lang (Cls p) x -> all_chars p x = true.
Proof. intros (c & -> & Hc). simpl. rewrite Hc. reflexivity. Qed.

(** One digit or more. *)
Lemma lang_digits (w : string) :
  lang (plus d) w ->
  exists c w', w = String c w' /\ Py.is_digit c = true /\ all_chars Py.is_digit w' = true.
Proof.
  intros H. pose proof (lang_rep_all Py.is_digit _ _ _ _ _ (lang_class Py.is_digit) H) as Hall.
  destruct H as (ws & -> & Hws & Hlo & _).
  destruct Hws as [|x ws (c & -> & Hc) Hws]; [simpl in Hlo; lia|].
  exists c, (flatten ws). repeat split; [exact Hc|].
  simpl in Hall. try rewrite append_cons in Hall. simpl in Hall.
  apply andb_true_iff in Hall as [_ Hall]. exact Hall.
Qed.

(** A dot and digits. *)
Lemma lang_fraction (n : nat) (w : string) :
  lang (Cat (chr ".") (times n d)) w ->
  exists f', w = String "." f' /\ all_chars Py.is_digit f' = true.
Proof.
  intros (w1 & w2 & -> & (c & -> & Hc) & H2).
  apply Ascii.eqb_eq in Hc. subst c. exists w2. split; [reflexivity|].
  exact (lang_rep_all Py.is_digit _ _ _ _ _ (lang_class Py.is_digit) H2).
Qed.

Lemma lang_optional (r : regex) (w : string) :
  lang (opt r) w -> w = EmptyString \/ lang r w.
Proof.
  intros (ws & -> & Hws & _ & Hhi). destruct Hws as [|x ws Hx Hws]; [left; reflexivity|].
  destruct ws; [|simpl in Hhi; lia]. right. simpl. rewrite append_nil_r. exact Hx.
Qed.

Lemma lang_number (w : string) : lang Gmail.number w -> amount_text w.
Proof.
  intros (w1 & w2 & -> & H1 & H2).
  destruct (lang_digits w1 H1) as (c & w1' & -> & Hc & Hw1).
  apply amount_text_shape; [exact Hc | |].
  - exact (all_chars_weaken _ digit_or_comma _
             (fun x Hx => eq_trans (f_equal (fun b => b || Ascii.eqb x ",") Hx) eq_refl) Hw1).
  - destruct (lang_optional _ _ H2) as [->|H]; [left; reflexivity|].
    right. exact (lang_fraction 2 w2 H).
Qed.

Lemma lang_decimal (w : string) :
  lang (seq [plus d; chr "."; times 2 d]) w -> amount_text w.
Proof.
  intros (w1 & w2 & -> & H1 & H2).
  destruct (lang_digits w1 H1) as (c & w1' & -> & Hc & Hw1).
  apply amount_text_shape; [exact Hc | |].
  - exact (all_chars_weaken _ digit_or_comma _
             (fun x Hx => eq_trans (f_equal (fun b => b || Ascii.eqb x ",") Hx) eq_refl) Hw1).
  - right. exact (lang_fraction 2 w2 H2).
Qed.

Lemma lang_grouped (w : string) :
  lang (seq [plus d; star (Cat (chr ",") (times 3 d)); opt (Cat (chr ".") (times 2 d))]) w ->
  amount_text w.
Proof.
  intros (w1 & w23 & -> & H1 & (w2 & w3 & -> & H2 & H3)).
  destruct (lang_digits w1 H1) as (c & w1' & -> & Hc & Hw1).
  rewrite <- append_assoc, append_cons.
  apply amount_text_shape; [exact Hc | |].
  - rewrite all_chars_app. apply andb_true_iff. split.
    + exact (all_chars_weaken _ digit_or_comma _
               (fun x Hx => eq_trans (f_equal (fun b => b || Ascii.eqb x ",") Hx) eq_refl)
               Hw1).
    + apply (lang_rep_all digit_or_comma _ _ _ _ _) with (2 := H2).
      intros x (x1 & x2 & -> & (y & -> & Hy) & Hx2).
      apply Ascii.eqb_eq in Hy. subst y. try rewrite append_cons. simpl.
      apply (all_chars_weaken Py.is_digit).
      * intros z Hz. unfold digit_or_comma. rewrite Hz. reflexivity.
      * exact (lang_rep_all Py.is_digit _ _ _ _ _ (lang_class Py.is_digit) Hx2).
  - destruct (lang_optional _ _ H3) as [->|H]; [left; reflexivity|].
    right. exact (lang_fraction 2 w3 H).
Qed.

(** Group 1 of every amount pattern captures a text [float] reads. *)
Lemma amount_patterns_capture :
  Forall (fun r => sets_group r = true /\ captures amount_text r)
         (Gmail.amount_patterns ++ [Gmail.general_amount_pattern]).
Proof.
  repeat constructor; cbn [captures seq alt lit_i Gmail.label star plus upto opt chr chr_i
                           times sp w d Gmail.number];
    repeat split; try exact I; intros x Hx;
    first [exact (lang_number x Hx) | exact (lang_decimal x Hx) | exact (lang_grouped x Hx)].
Qed.

Lemma amount_of_match (r : regex) (text : string) (m : rmatch) :
  sets_group r = true -> captures amount_text r ->
  search r text = Some m ->
  exists q, Gmail.amount_of m = Ok q /\ (0 <= q)%Q.
Proof.
  intros Hs Hc Hm. destruct (search_captures amount_text r text m Hs Hc Hm) as (q & Hq & Hpos).
  exists q. unfold Gmail.amount_of. rewrite Hq. auto.
Qed.

Lemma extract_amount_total (text : string) :
  exists a, Gmail.extract_amount text = Ok a /\ forall q, a = Some q -> (0 <= q)%Q.
Proof.
  pose proof amount_patterns_capture as Hall. apply Forall_app in Hall as [Hpri Hgen].
  unfold Gmail.extract_amount.
  destruct (Gmail.first_match Gmail.amount_patterns text) as [m|] eqn:Hm.
  - destruct (first_match_inv _ _ _ Hm) as (before & r & after & Heq & _ & Hr).
    rewrite Heq in Hpri. apply Forall_app in Hpri as [_ Hpri].
    inversion Hpri as [|? ? [Hs Hc] _]; subst.
    destruct (amount_of_match r text m Hs Hc Hr) as (q & -> & Hq).
    exists (Some q). split; [reflexivity|]. intros ? [= <-]. exact Hq.
  - destruct (search Gmail.general_amount_pattern text) as [m|] eqn:Hg.
    + inversion Hgen as [|? ? [Hs Hc] _]; subst.
      destruct (amount_of_match _ text m Hs Hc Hg) as (q & -> & Hq).
      exists (Some q). split; [reflexivity|]. intros ? [= <-]. exact Hq.
    + exists None. split; [reflexivity | discriminate].
Qed.
End AmountLanguage.

Lemma extract_expense_details_amount (W : world) (globals : gmap string Message)
    (text subject : string) (r : Gmail.results) :
  Gmail.extract_expense_details W globals text subject = Ok (Some r) ->
  (0 <= Gmail.amount r)%Q.
Proof.
  unfold Gmail.extract_expense_details.
  destruct (extract_amount_total (Gmail.clean_text W text)) as (a & -> & Ha). simpl.
  destruct (match Gmail.find_merchant _ _ with Some name => _ | None => _ end)
    as [mch|]; simpl; [|discriminate].
  destruct a as [q|]; [|discriminate]. destruct mch as [name|]; [|discriminate].
  intros [= <-]. simpl. apply Ha. reflexivity.
Qed.

Lemma gmail_fetch_and_extract_amount (W : world) (st : Gmail.db) (user : Gmail.User)
    (uid : Z) (mid : string) (e : Gmail.Expense) :
  Gmail.fetch_and_extract W st user uid mid = Ok (Some e) -> (0 <= Gmail.e_amount e)%Q.
Proof.
  unfold Gmail.fetch_and_extract.
  destruct (gmail_get W (Gmail.refresh_token user) mid) as [message|]; simpl; [|discriminate].
  destruct (Gmail.body_text (payload message)) as [text|]; simpl; [|discriminate].
  destruct (Gmail.extract_expense_details W Gmail.module_globals text _) as [[r|]|] eqn:Hr;
    simpl; try discriminate.
  intros [= <-].
  match goal with |- context [Gmail.categorize_expense W st ?x uid] =>
    destruct (categorize_expense_fields W st x uid) as (_ & _ & -> & _) end.
  simpl. exact (extract_expense_details_amount _ _ _ _ _ Hr).
Qed.

(** X19. The amount extraction of [extract_expense_details] never raises:
    every text its patterns capture is read by [float] once the commas are
    removed, and the amount found is never negative. *)
Theorem X19_extract_amount_never_raises :
  forall text : string,
    exists a : option Q,
      Gmail.extract_amount text = Ok a
      /\ match a with
         | Some q => (0 <= q)%Q
         | None => True
         end.
Proof.
  intros text. destruct (extract_amount_total text) as (a & Ha & Hq).
  exists a. split; [exact Ha|]. destruct a as [q|]; [apply Hq; reflexivity | exact I].
Qed.

(** X20. [process_email_message] never stores a negative amount: the
    expense of a successful run has an amount of 0 or more. *)
Theorem X20_stored_amount_is_not_negative :
  forall (W : world) (st st' : Gmail.db) (uid id : Z) (mid : string),
    Gmail.process_email_message W st uid mid = (Ok (Gmail.Success id), st') ->
    exists e : Gmail.Expense,
      Gmail.expenses st' = (Gmail.expenses st ++ [e])%list
      /\ Gmail.e_id e = id /\ (0 <= Gmail.e_amount e)%Q.
Proof.
  intros W st st' uid id mid H.
  destruct (process_email_message_success _ _ _ _ _ _ H)
    as (user & e & _ & _ & Hf & -> & ->).
  exists e. repeat split. exact (gmail_fetch_and_extract_amount _ _ _ _ _ _ Hf).
Qed.

Lemma X20_witness :
  exists e : Gmail.Expense,
    Gmail.expenses (snd (Gmail.process_email_message receipts two_users 1 "m-2")) = [e]
    /\ Gmail.e_id e = 1%Z /\ (0 <= Gmail.e_amount e)%Q.
Proof.
  apply (X20_stored_amount_is_not_negative receipts two_users
           (snd (Gmail.process_email_message receipts two_users 1 "m-2")) 1 1 "m-2").
  vm_compute. reflexivity.
Defined.
